(** * The Guardian article collector of NewsAPI.ipynb

    A shallow embedding of the notebook's three pieces of logic:
    [request_api] (cell 3), [clean_text] (cell 22) and the paginated
    collection loop (cell 26), followed by the properties the
    specification states about them.

    Python values are modelled as the notebook meets them:
    - a [str] is a sequence of Unicode code points ([list N]);
    - the value returned by [json.loads] is a [json] tree;
    - an exception is a value of [pyexc] carried by [result];
    - the cell-level variable [all_articles], the requests sent and the
      lines printed form the [state] threaded by the monad [M].

    The trial cells of the same notebook and the two functions of the
    wiki-table notebook ([get_pokemon], [get_pokemon_list]) follow, with
    the parsed page kept as the nodes those functions look at. *)

From Stdlib Require Import Ascii String.
From Stdlib Require Import List ZArith NArith Bool Lia Permutation.
From Stdlib Require DecimalZ.
Import ListNotations.

(* ================================================================== *)
(** ** Python strings *)

Module PyStr.

(** A Python [str]: the sequence of its code points. *)
Definition str := list N.

(** An ASCII literal of the source, as a [str]. *)
Definition lit (s : string) : str := map N_of_ascii (list_ascii_of_string s).

Fixpoint str_eqb (a b : str) : bool :=
  match a, b with
  | [], [] => true
  | x :: a', y :: b' => N.eqb x y && str_eqb a' b'
  | _, _ => false
  end.

(** [s.startswith(p)]. *)
Fixpoint startswith (s p : str) : bool :=
  match p, s with
  | [], _ => true
  | _ :: _, [] => false
  | x :: p', y :: s' => N.eqb x y && startswith s' p'
  end.

(** The scan of [s.replace(old, new)] for a non-empty [old]: left to
    right, at each position either an occurrence of [old] starts (it is
    replaced and the scan resumes after it) or the character is kept.
    [fuel] bounds the number of positions; [length s] is enough. *)
Fixpoint replace_scan (fuel : nat) (s old new : str) : str :=
  match fuel with
  | O => s
  | S fuel' =>
      match s with
      | [] => []
      | c :: t =>
          if startswith s old
          then new ++ replace_scan fuel' (skipn (length old) s) old new
          else c :: replace_scan fuel' t old new
      end
  end.

(** [s.replace(old, new)].  With an empty [old] Python inserts [new]
    before every character and at the end. *)
Definition replace (s old new : str) : str :=
  match old with
  | [] => new ++ flat_map (fun c => c :: new) s
  | _ :: _ => replace_scan (length s) s old new
  end.

(** [old in s]: [old] occurs in [s] as a contiguous run. *)
Definition occurs (old s : str) : Prop :=
  exists a b, s = a ++ old ++ b.

(** The same test as a function, for evaluation. *)
Fixpoint contains (s old : str) : bool :=
  startswith s old ||
  match s with
  | [] => false
  | _ :: t => contains t old
  end.

(** [str(n)] for an [int]. *)
Definition digit_cp (d : nat) : N := 48 + N.of_nat d.

Fixpoint uint_cps (u : Decimal.uint) : str :=
  match u with
  | Decimal.Nil => []
  | Decimal.D0 u' => digit_cp 0 :: uint_cps u'
  | Decimal.D1 u' => digit_cp 1 :: uint_cps u'
  | Decimal.D2 u' => digit_cp 2 :: uint_cps u'
  | Decimal.D3 u' => digit_cp 3 :: uint_cps u'
  | Decimal.D4 u' => digit_cp 4 :: uint_cps u'
  | Decimal.D5 u' => digit_cp 5 :: uint_cps u'
  | Decimal.D6 u' => digit_cp 6 :: uint_cps u'
  | Decimal.D7 u' => digit_cp 7 :: uint_cps u'
  | Decimal.D8 u' => digit_cp 8 :: uint_cps u'
  | Decimal.D9 u' => digit_cp 9 :: uint_cps u'
  end.

Definition str_of_int (z : Z) : str :=
  match Z.to_int z with
  | Decimal.Pos u => uint_cps u
  | Decimal.Neg u => 45%N :: uint_cps u
  end.

End PyStr.
Import PyStr.

(* ================================================================== *)
(** ** Exceptions and JSON values *)

Inductive pyexc : Type :=
| KeyError | IndexError | TypeError | AttributeError
| JSONDecodeError | RequestException.

(** A computation that returns a value or raises. *)
Definition result (A : Type) : Type := (pyexc + A)%type.
Definition ok {A} (a : A) : result A := inr a.
Definition raise {A} (e : pyexc) : result A := inl e.

Definition rbind {A B} (r : result A) (k : A -> result B) : result B :=
  match r with
  | inl e => inl e
  | inr a => k a
  end.

Notation "'let?' x ':=' r 'in' k" := (rbind r (fun x => k))
  (at level 10, x name, r at level 100, k at level 200).

(** What [json.loads] builds.  A dict is kept as its items in insertion
    order; a parsed dict has distinct keys, and a key is looked up from
    the front.  The loop never looks inside a number, so one constructor
    stands for ints and floats. *)
#[warnings="-register-all"]
Inductive json : Type :=
| JNull
| JBool (b : bool)
| JNum (n : Z)
| JStr (s : str)
| JList (l : list json)
| JDict (items : list (str * json)).

Fixpoint dict_get (items : list (str * json)) (key : str) : option json :=
  match items with
  | [] => None
  | (k, v) :: rest => if str_eqb k key then Some v else dict_get rest key
  end.

(** [v[key]] for a string key. *)
Definition getitem (v : json) (key : str) : result json :=
  match v with
  | JDict items =>
      match dict_get items key with
      | Some x => ok x
      | None => raise KeyError
      end
  | _ => raise TypeError
  end.

(** [v[0]].  A parsed dict has only string keys, so [0] is never one. *)
Definition getitem0 (v : json) : result json :=
  match v with
  | JList (x :: _) => ok x
  | JList [] => raise IndexError
  | JStr (c :: _) => ok (JStr [c])
  | JStr [] => raise IndexError
  | JDict _ => raise KeyError
  | _ => raise TypeError
  end.

(** The items [for x in v] visits. *)
Definition py_iter (v : json) : result (list json) :=
  match v with
  | JList l => ok l
  | JDict items => ok (map (fun kv => JStr (fst kv)) items)
  | JStr s => ok (map (fun c => JStr [c]) s)
  | _ => raise TypeError
  end.

(** [len(v)]. *)
Definition py_len (v : json) : result Z :=
  match v with
  | JList l => ok (Z.of_nat (length l))
  | JDict items => ok (Z.of_nat (length items))
  | JStr s => ok (Z.of_nat (length s))
  | _ => raise TypeError
  end.

(** [v != s] for a string literal [s]. *)
Definition py_ne (v : json) (s : str) : bool :=
  match v with
  | JStr s' => negb (str_eqb s' s)
  | _ => true
  end.

(* ================================================================== *)
(** ** clean_text (cell 22) *)

Definition mis_rsquo   : str := [0xE2; 0x20AC; 0x2122]%N.
Definition mis_ldquo   : str := [0xE2; 0x20AC; 0x153]%N.
Definition mis_rdquo   : str := [0xE2; 0x20AC; 0xFFFD]%N.
Definition mis_bullet  : str := [0xE2; 0x20AC; 0xA2]%N.
Definition mis_eacute  : str := [0xC3; 0xA9]%N.
Definition mis_uuml    : str := [0xC3; 0xBC]%N.
Definition mis_endash  : str := [0xE2; 0x20AC; 0x201C]%N.

Definition apostrophe : str := [39%N].
Definition dquote : str := [34%N].

(** The chain of [.replace] calls, in the order of the source. *)
Definition clean_text (text : str) : str :=
  replace
    (replace
      (replace
        (replace
          (replace
            (replace
              (replace text mis_rsquo apostrophe)
              mis_ldquo dquote)
            mis_rdquo dquote)
          mis_bullet (lit "*"))
        mis_eacute (lit "e"))
      mis_uuml (lit "u"))
    mis_endash (lit "-").

(** The same pairs as a table, first applied first. *)
Definition repair_table : list (str * str) :=
  [ (mis_rsquo, apostrophe); (mis_ldquo, dquote); (mis_rdquo, dquote);
    (mis_bullet, lit "*"); (mis_eacute, lit "e"); (mis_uuml, lit "u");
    (mis_endash, lit "-") ].

Definition apply_subst (s : str) (p : str * str) : str :=
  replace s (fst p) (snd p).

Definition apply_table (table : list (str * str)) (s : str) : str :=
  fold_left apply_subst table s.

(** [clean_text(v)] on a parsed value: only a [str] has [.replace]. *)
Definition call_clean_text (v : json) : result str :=
  match v with
  | JStr s => ok (clean_text s)
  | _ => raise AttributeError
  end.

(* ================================================================== *)
(** ** The outside world and the notebook state *)

Module Response.
Record t : Type := mk { status_code : Z; text : str }.
End Response.

(** What the notebook does not define: the HTTP client, the JSON parser
    and the key read from [key.txt]. *)
Record world : Type := {
  requests_get : str -> result Response.t;
  json_loads : str -> result json;
  API_KEY : str
}.

(** One element of [all_articles]: the dict with keys
    ['title'], ['date'], ['authors'], ['text']. *)
Record CollectedArticle : Type := {
  title : str;
  date : json;
  authors : list str;
  text : str
}.

Record state : Type := {
  all_articles : list CollectedArticle;
  requested : list str;      (* URLs passed to requests.get, oldest first *)
  stdout : list str          (* lines printed, oldest first *)
}.

Definition initial_state : state :=
  {| all_articles := []; requested := []; stdout := [] |}.

(** State and exceptions. *)
Definition M (A : Type) : Type := state -> result A * state.

Definition ret {A} (a : A) : M A := fun st => (ok a, st).

Definition bind {A B} (m : M A) (k : A -> M B) : M B :=
  fun st =>
    match m st with
    | (inl e, st') => (inl e, st')
    | (inr a, st') => k a st'
    end.

Definition lift {A} (r : result A) : M A := fun st => (r, st).

Notation "x <- m ;; k" := (bind m (fun x => k))
  (at level 61, m at next level, right associativity).
Notation "m ;; k" := (bind m (fun _ => k))
  (at level 61, right associativity).

(** [try: m  except: handler] with a bare [except]. *)
Definition try_except {A} (m handler : M A) : M A :=
  fun st =>
    match m st with
    | (inl _, st') => handler st'
    | (inr a, st') => (inr a, st')
    end.

Definition print (line : str) : M unit :=
  fun st => (ok tt, {| all_articles := all_articles st;
                       requested := requested st;
                       stdout := stdout st ++ [line] |}).

Definition append_article (a : CollectedArticle) : M unit :=
  fun st => (ok tt, {| all_articles := all_articles st ++ [a];
                       requested := requested st;
                       stdout := stdout st |}).

Definition get (w : world) (url : str) : M Response.t :=
  fun st => (requests_get w url,
             {| all_articles := all_articles st;
                requested := requested st ++ [url];
                stdout := stdout st |}).

(* ================================================================== *)
(** ** request_api (cell 3) *)

(** A keyword argument's value: the notebook passes ints and strs. *)
Inductive pyval : Type :=
| PInt (z : Z)
| PStr (s : str).

(** [str(value)]. *)
Definition py_str (value : pyval) : str :=
  match value with
  | PInt z => str_of_int z
  | PStr s => s
  end.

Definition API_SITE : str := lit "https://content.guardianapis.com/".

(** The [for key, value in params.items()] loop: each parameter is put
    in front of what [queries] already holds. *)
Fixpoint add_queries (params : list (str * pyval)) (queries : str) : str :=
  match params with
  | [] => queries
  | (key, value) :: rest =>
      add_queries rest
        (replace key (lit "_") (lit "-") ++ lit "=" ++ py_str value
           ++ lit "&" ++ queries)
  end.

Definition request_queries (apiKey : str) (params : list (str * pyval)) : str :=
  add_queries params (lit "api-key=" ++ apiKey).

Definition request_url (endpoint apiKey : str) (params : list (str * pyval))
  : str :=
  API_SITE ++ endpoint ++ lit "?" ++ request_queries apiKey params.

Definition request_api (w : world) (endpoint apiKey : str)
    (params : list (str * pyval)) : M Response.t :=
  get w (request_url endpoint apiKey params).

(* ================================================================== *)
(** ** The collection loop (cell 26) *)

(** The [for tag in entry['tags']] loop, [authors] being the list built
    so far. *)
Fixpoint collect_authors (tags : list json) (authors : list str)
  : result (list str) :=
  match tags with
  | [] => ok authors
  | tag :: rest =>
      let? ty := getitem tag (lit "type") in
      if py_ne ty (lit "contributor") then collect_authors rest authors
      else
        let? name := getitem tag (lit "webTitle") in
        let? cleaned := call_clean_text name in
        collect_authors rest (authors ++ [cleaned])
  end.

(** What one [entry] contributes: [None] when the [continue] is taken,
    the dict to append otherwise. *)
Definition entry_article (entry : json) : result (option CollectedArticle) :=
  let? ty := getitem entry (lit "type") in
  if py_ne ty (lit "article") then ok None
  else
    let? web_title := getitem entry (lit "webTitle") in
    let? title := call_clean_text web_title in
    let? date := getitem entry (lit "webPublicationDate") in
    let? tags := getitem entry (lit "tags") in
    let? tag_list := py_iter tags in
    let? authors := collect_authors tag_list [] in
    let? blocks := getitem entry (lit "blocks") in
    let? body := getitem blocks (lit "body") in
    let? block := getitem0 body in
    let? summary := getitem block (lit "bodyTextSummary") in
    let? text := call_clean_text summary in
    ok (Some {| title := title; date := date;
                authors := authors; text := text |}).

(** The body of [for entry in results]. *)
Definition entry_body (entry : json) : M unit :=
  a <- lift (entry_article entry) ;;
  match a with
  | None => ret tt
  | Some article => append_article article
  end.

Fixpoint for_each {A} (items : list A) (body : A -> M unit) : M unit :=
  match items with
  | [] => ret tt
  | x :: rest => body x ;; for_each rest body
  end.

(** How an iteration of the page loop ends. *)
Inductive flow : Type := Next | Break.

Fixpoint for_break {A} (items : list A) (body : A -> M flow) : M unit :=
  match items with
  | [] => ret tt
  | x :: rest =>
      f <- body x ;;
      match f with
      | Break => ret tt
      | Next => for_break rest body
      end
  end.

(** [range(a, b)]. *)
Definition range (a b : Z) : list Z :=
  map (fun i => (a + Z.of_nat i)%Z) (seq 0 (Z.to_nat (b - a))).

(** The cell's settings: [max_limit], [page_limit], [from_date],
    [to_date]. *)
Record settings : Type := {
  max_limit : Z;
  page_limit : Z;
  from_date : str;
  to_date : str
}.

Definition notebook_settings : settings :=
  {| max_limit := 20; page_limit := 50;
     from_date := lit "2021-03-11"; to_date := lit "2021-03-12" |}.

Definition page_params (c : settings) (page : Z) : list (str * pyval) :=
  [ (lit "page", PInt page);
    (lit "page_size", PInt (page_limit c));
    (lit "from_date", PStr (from_date c));
    (lit "to_date", PStr (to_date c));
    (lit "show_tags", PStr (lit "contributor"));
    (lit "show_blocks", PStr (lit "body")) ].

Definition page_url (w : world) (c : settings) (page : Z) : str :=
  request_url (lit "search") (API_KEY w) (page_params c page).

(** The [try] block of one page. *)
Definition page_try (w : world) (c : settings) (page : Z) : M flow :=
  response <- request_api w (lit "search") (API_KEY w) (page_params c page) ;;
  if negb (Response.status_code response =? 200)%Z then ret Break
  else
    parsed <- lift (json_loads w (Response.text response)) ;;
    resp <- lift (getitem parsed (lit "response")) ;;
    results <- lift (getitem resp (lit "results")) ;;
    entries <- lift (py_iter results) ;;
    for_each entries entry_body ;;
    n <- lift (py_len results) ;;
    if (n <? page_limit c)%Z then ret Break else ret Next.

(** One iteration of [for page in range(1, max_limit + 1)]. *)
Definition page_body (w : world) (c : settings) (page : Z) : M flow :=
  print (lit "Fetching page " ++ str_of_int page) ;;
  try_except (page_try w c page) (ret Break).

Definition collect (w : world) (c : settings) : M unit :=
  for_break (range 1 (max_limit c + 1)%Z) (page_body w c) ;;
  print (lit "Done!").

(** The whole cell, from [all_articles = []]. *)
Definition run (w : world) (c : settings) : result unit * state :=
  collect w c initial_state.

(* ================================================================== *)
(** ** Vocabulary of the statements *)

(** No character of [new] is a character of [q]. *)
Definition fresh (new q : str) : Prop := forall c, In c new -> ~ In c q.

Definition freshb (new q : str) : bool :=
  forallb (fun c => negb (existsb (N.eqb c) q)) new.

(** Neither string is a prefix of the other. *)
Definition incomparable (u v : str) : bool :=
  negb (startswith u v) && negb (startswith v u).

(** No occurrence of [old] can start inside [w], whatever follows [w]. *)
Fixpoint no_overlap (w old : str) : bool :=
  match w with
  | [] => true
  | _ :: w' => incomparable w old && no_overlap w' old
  end.

Definition nonempty (s : str) : bool :=
  match s with [] => false | _ :: _ => true end.

(** A sufficient, checkable condition for two substitutions to commute. *)
Definition independent (p1 p2 : str * str) : bool :=
  nonempty (fst p1) && nonempty (snd p1) &&
  nonempty (fst p2) && nonempty (snd p2) &&
  freshb (snd p1) (fst p2) && freshb (snd p2) (fst p1) &&
  no_overlap (fst p1) (fst p2) && no_overlap (fst p2) (fst p1) &&
  no_overlap (snd p1) (fst p2) && no_overlap (snd p2) (fst p1).

(** [f] and [g] may be applied in either order. *)
Definition commute (f g : str -> str) : Prop := forall s, f (g s) = g (f s).

(** The seven mis-decoded sequences. *)
Definition mis_decoded : list str := map fst repair_table.

(** [s] holds none of them. *)
Definition repaired (s : str) : Prop :=
  forall p, In p mis_decoded -> ~ occurs p s.

Definition repairedb (s : str) : bool :=
  forallb (fun p => negb (contains s p)) mis_decoded.

(** What the entries of one page add to [all_articles], in order, and
    how the [for entry in results] loop over them ends: the entries
    after a faulty one are never reached. *)
Fixpoint gather (entries : list json) : list CollectedArticle * result unit :=
  match entries with
  | [] => ([], ok tt)
  | e :: rest =>
      match entry_article e with
      | inl exc => ([], inl exc)
      | inr None => gather rest
      | inr (Some a) => (a :: fst (gather rest), snd (gather rest))
      end
  end.

Definition page_articles (entries : list json) : list CollectedArticle :=
  fst (gather entries).

(** Processing [entries] raises nothing. *)
Definition faultless (entries : list json) : Prop :=
  snd (gather entries) = ok tt.

Definition fetching_line (page : Z) : str :=
  lit "Fetching page " ++ str_of_int page.

(** The state once [page] has been requested and [arts] appended. *)
Definition after_page (w : world) (c : settings) (page : Z)
    (arts : list CollectedArticle) (st : state) : state :=
  {| all_articles := all_articles st ++ arts;
     requested := requested st ++ [page_url w c page];
     stdout := stdout st ++ [fetching_line page] |}.

(** The request for [page] is answered 200 and the body parses to an
    object whose ['response']['results'] is [results]. *)
Definition page_answer (w : world) (c : settings) (page : Z)
    (results : json) : Prop :=
  exists resp parsed r,
    requests_get w (page_url w c page) = ok resp /\
    Response.status_code resp = 200%Z /\
    json_loads w (Response.text resp) = ok parsed /\
    getitem parsed (lit "response") = ok r /\
    getitem r (lit "results") = ok results.

(** ... and [results] is the list [recs]. *)
Definition page_results (w : world) (c : settings) (page : Z)
    (recs : list json) : Prop :=
  page_answer w c page (JList recs).

(** [entry] is one of the items the loop visits on [page]. *)
Definition fetched_entry (w : world) (c : settings) (page : Z)
    (entry : json) : Prop :=
  exists results entries,
    page_answer w c page results /\ py_iter results = ok entries /\
    In entry entries.

(** How the iteration of a page with result list [recs] ends. *)
Definition page_flow (c : settings) (recs : list json) : flow :=
  match snd (gather recs) with
  | inl _ => Break
  | inr _ =>
      if (Z.of_nat (length recs) <? page_limit c)%Z then Break else Next
  end.

(** What a record adds when it is processed. *)
Definition contribution (entry : json) : list CollectedArticle :=
  match entry_article entry with
  | inr (Some a) => [a]
  | _ => []
  end.

(** The state after the pages [pages], in this order, each answered
    with the list [recs page]. *)
Definition after_pages (w : world) (c : settings) (recs : Z -> list json)
    (pages : list Z) (st : state) : state :=
  fold_left (fun st page => after_page w c page (page_articles (recs page)) st)
            pages st.

(** The request for [page] is answered with another status. *)
Definition page_refused (w : world) (c : settings) (page : Z) : Prop :=
  exists resp,
    requests_get w (page_url w c page) = ok resp /\
    Response.status_code resp <> 200%Z.

(** The records of the data model, as the upstream serialises them:
    [v[key]] is there and is a string. *)
Definition has_str (v : json) (key : str) : bool :=
  match getitem v key with
  | inr (JStr _) => true
  | _ => false
  end.

Definition kind_of (v : json) : option str :=
  match getitem v (lit "type") with
  | inr (JStr k) => Some k
  | _ => None
  end.

Definition has_kind (v : json) (k : str) : bool :=
  match kind_of v with
  | Some k' => str_eqb k' k
  | None => false
  end.

(** A tag: a [{kind, name}] pair. *)
Definition tag_wf (tag : json) : bool :=
  has_str tag (lit "type") && has_str tag (lit "webTitle").

Definition tag_name (tag : json) : str :=
  match getitem tag (lit "webTitle") with
  | inr (JStr s) => s
  | _ => []
  end.

Definition first_block (entry : json) : result json :=
  let? blocks := getitem entry (lit "blocks") in
  let? body := getitem blocks (lit "body") in
  getitem0 body.

(** An [article] record: title, publication date, a list of tags and a
    body list whose first block carries the text. *)
Definition article_wf (entry : json) : bool :=
  has_kind entry (lit "article") &&
  has_str entry (lit "webTitle") &&
  has_str entry (lit "webPublicationDate") &&
  match getitem entry (lit "tags") with
  | inr (JList tags) => forallb tag_wf tags
  | _ => false
  end &&
  match getitem entry (lit "blocks") with
  | inr blocks =>
      match getitem blocks (lit "body") with
      | inr (JList (block :: _)) => has_str block (lit "bodyTextSummary")
      | _ => false
      end
  | _ => false
  end.

(** A record of any kind; only an [article] needs the other fields. *)
Definition record_wf (entry : json) : bool :=
  match kind_of entry with
  | Some k => if str_eqb k (lit "article") then article_wf entry else true
  | None => false
  end.

(** One parameter as it is written into the query string. *)
Definition query_name (key : str) : str := replace key (lit "_") (lit "-").

Definition query_pair (p : str * pyval) : str :=
  query_name (fst p) ++ lit "=" ++ py_str (snd p) ++ lit "&".

Definition underscore : N := 95%N.

(* ================================================================== *)
(** ** A scripted upstream, for concrete runs *)

Module Mock.

Definition key : str := lit "test-key".

Definition url (c : settings) (page : Z) : str :=
  request_url (lit "search") key (page_params c page).

(** The text of the answer to page [n] is just a token; [loads] maps it
    back to the scripted body. *)
Definition token (n : Z) : str := lit "body of page " ++ str_of_int n.

Definition body (recs : list json) : json :=
  JDict [ (lit "response",
           JDict [ (lit "status", JStr (lit "ok"));
                   (lit "results", JList recs) ]) ].

(** [script] lists, from page [n] on, the status and the result list
    of each page; a page beyond the script cannot be reached. *)
Fixpoint get (c : settings) (script : list (Z * list json)) (n : Z)
    (u : str) : result Response.t :=
  match script with
  | [] => raise RequestException
  | (status, _) :: rest =>
      if str_eqb u (url c n)
      then ok (Response.mk status (token n))
      else get c rest (n + 1)%Z u
  end.

Fixpoint loads (script : list (Z * list json)) (n : Z) (t : str)
  : result json :=
  match script with
  | [] => raise JSONDecodeError
  | (_, recs) :: rest =>
      if str_eqb t (token n) then ok (body recs)
      else loads rest (n + 1)%Z t
  end.

Definition upstream (c : settings) (script : list (Z * list json)) : world :=
  {| requests_get := get c script 1;
     json_loads := loads script 1;
     API_KEY := key |}.

Definition tag (kind name : str) : json :=
  JDict [ (lit "id", JStr (lit "profile/x"));
          (lit "type", JStr kind);
          (lit "webTitle", JStr name) ].

Definition raw_title : str := lit "It" ++ mis_rsquo ++ lit "s a caf" ++ mis_eacute.
Definition raw_date : str := lit "2021-03-11T10:00:00Z" ++ mis_endash.
Definition raw_text : str :=
  mis_ldquo ++ lit "Z" ++ mis_uuml ++ lit "rich" ++ mis_rdquo ++ lit " "
    ++ mis_bullet ++ lit " 1" ++ mis_endash ++ lit "2".

Definition record (kind : str) (blocks : list json) : json :=
  JDict [ (lit "id", JStr (lit "world/2021/mar/11/x"));
          (lit "type", JStr kind);
          (lit "webTitle", JStr raw_title);
          (lit "webPublicationDate", JStr raw_date);
          (lit "tags",
           JList [ tag (lit "contributor") (lit "Ren" ++ mis_eacute ++ lit "e A");
                   tag (lit "keyword") (lit "World news");
                   tag (lit "contributor") (lit "B C") ]);
          (lit "blocks", JDict [ (lit "body", JList blocks) ]) ].

Definition block : json :=
  JDict [ (lit "bodyTextSummary", JStr raw_text) ].

Definition article : json := record (lit "article") [block].

(** An article whose body list is empty. *)
Definition hollow_article : json := record (lit "article") [].

(** A liveblog that has nothing but its kind. *)
Definition liveblog : json := JDict [ (lit "type", JStr (lit "liveblog")) ].

(** The two-page scenario: fifty articles, then thirty. *)
Definition scenario : list (Z * list json) :=
  [ (200%Z, repeat article 50); (200%Z, repeat article 30) ].

(** Two full pages, then a refusal. *)
Definition refused_third : list (Z * list json) :=
  [ (200%Z, [article; liveblog]); (200%Z, [article; article]);
    (503%Z, []) ].

Definition refused_recs (p : Z) : list json :=
  if (p =? 1)%Z then [article; liveblog] else [article; article].

(** A full page, then a short one, then one that must not be asked. *)
Definition short_second : list (Z * list json) :=
  [ (200%Z, [article; article]); (200%Z, [liveblog]);
    (200%Z, [article; article]) ].

(** A page with a hollow article in the middle. *)
Definition fault_first : list (Z * list json) :=
  [ (200%Z, [article; hollow_article; article]);
    (200%Z, [article; article]) ].

Definition collected : CollectedArticle :=
  {| title := lit "It's a cafe";
     date := JStr raw_date;
     authors := [lit "Renee A"; lit "B C"];
     text := dquote ++ lit "Zurich" ++ dquote ++ lit " * 1-2" |}.

(** Small settings: two records a page, at most five pages. *)
Definition small : settings :=
  {| max_limit := 5; page_limit := 2;
     from_date := lit "2021-03-11"; to_date := lit "2021-03-12" |}.

End Mock.

(* ================================================================== *)
(** ** Further vocabulary *)

(** The first character of [b], if any, is not a later character of
    [old]: no occurrence of [old] that starts before [b] ends in it. *)
Definition boundary_ok (old b : str) : bool :=
  match b with
  | [] => true
  | x :: _ => negb (existsb (N.eqb x) (tl old))
  end.

(** The iteration of [page] raises before any entry is read: the
    request itself raises, or it is answered 200 and the body does not
    parse, lacks ['response'] or ['results'], or holds results that
    cannot be iterated. *)
Definition page_faulted (w : world) (c : settings) (page : Z) : Prop :=
  (exists exc, requests_get w (page_url w c page) = raise exc) \/
  (exists resp exc,
     requests_get w (page_url w c page) = ok resp /\
     Response.status_code resp = 200%Z /\
     (let? parsed := json_loads w (Response.text resp) in
      let? r := getitem parsed (lit "response") in
      let? results := getitem r (lit "results") in
      py_iter results) = raise exc).

(** More scripts. *)
Module Script.

(** One record a page, at most two pages. *)
Definition tiny : settings :=
  {| max_limit := 2; page_limit := 1;
     from_date := lit "2021-03-11"; to_date := lit "2021-03-12" |}.

(** Every page up to the ceiling is full; a third one is never asked. *)
Definition always_full : list (Z * list json) :=
  [ (200%Z, [Mock.article]); (200%Z, [Mock.liveblog]);
    (200%Z, [Mock.article]) ].

Definition always_full_recs (p : Z) : list json :=
  if (p =? 1)%Z then [Mock.article] else [Mock.liveblog].

(** No page at all. *)
Definition no_page : settings :=
  {| max_limit := 0; page_limit := 50;
     from_date := lit "2021-03-11"; to_date := lit "2021-03-12" |}.

(** One full page; the request for the second raises. *)
Definition dropped_second : list (Z * list json) :=
  [ (200%Z, [Mock.article; Mock.article]) ].

(** An upstream whose results are an object, not a list. *)
Definition object_results : world :=
  {| requests_get := fun _ => ok (Response.mk 200 (lit "{}"));
     json_loads := fun _ =>
       ok (JDict [ (lit "response",
                    JDict [ (lit "results",
                             JDict [ (lit "0", Mock.article) ]) ]) ]);
     API_KEY := Mock.key |}.

End Script.

(* ================================================================== *)
(** ** The trial cells of the article notebook *)

(** [v == s] for a string literal [s]. *)
Definition py_eq (v : json) (s : str) : bool :=
  match v with
  | JStr s' => str_eqb s' s
  | _ => false
  end.

(** [list(filter(lambda x: x['type'] == 'article', results))] over the
    items of [results]: the lambda raises on an item without ['type']. *)
Fixpoint filter_articles (results : list json) : result (list json) :=
  match results with
  | [] => ok []
  | x :: rest =>
      let? ty := getitem x (lit "type") in
      let? kept := filter_articles rest in
      ok (if py_eq ty (lit "article") then x :: kept else kept)
  end.

(** The loop over [test_articles] that fills [test_article_objs],
    [objs] being the list so far.  Its body is the body of the
    collection loop, but nothing catches what it raises. *)
Fixpoint build_article_objs (articles : list json)
    (objs : list CollectedArticle) : result (list CollectedArticle) :=
  match articles with
  | [] => ok objs
  | article :: rest =>
      let? made := entry_article article in
      match made with
      | None => build_article_objs rest objs
      | Some obj => build_article_objs rest (objs ++ [obj])
      end
  end.

(* ================================================================== *)
(** ** The wiki-table scraper (the other notebook) *)

Module Scraper.

(** [str.isspace] for one character. *)
Definition isspace (ch : N) : bool :=
  ((9 <=? ch) && (ch <=? 13) || (28 <=? ch) && (ch <=? 32)
   || (ch =? 0x85) || (ch =? 0xA0) || (ch =? 0x1680)
   || (0x2000 <=? ch) && (ch <=? 0x200A)
   || (ch =? 0x2028) || (ch =? 0x2029) || (ch =? 0x202F)
   || (ch =? 0x205F) || (ch =? 0x3000))%N.

Fixpoint lstrip (s : str) : str :=
  match s with
  | [] => []
  | ch :: t => if isspace ch then lstrip t else s
  end.

Definition rstrip (s : str) : str := rev (lstrip (rev s)).

(** [s.strip()]. *)
Definition strip (s : str) : str := rstrip (lstrip s).

(** The value of an HTML attribute: a string, or a list of strings for
    the multi-valued ones. *)
Inductive attr_value : Type :=
| AttrStr (s : str)
| AttrList (l : list str).

(** What the scraper looks at in a node of the parsed page.  A string
    node is its characters.  A tag is kept as what [.text] returns, the
    attributes of what [.find('a')] returns (if it finds one) and
    [.contents]. *)
#[warnings="-register-all"]
Inductive element : Type :=
| NavigableString (s : str)
| Tag (text : str) (anchor : option (list (str * attr_value)))
      (contents : list element).

(** What the parsing library leaves open: [.text] of a string node,
    which raises in some releases and is the string itself in others. *)
Record library : Type := { string_text : str -> result str }.

Definition newline : str := [10%N].

(** [x != '\n']: a tag is never equal to a string. *)
Definition ne_newline (x : element) : bool :=
  match x with
  | NavigableString s => negb (str_eqb s newline)
  | Tag _ _ _ => true
  end.

(** [x.contents]: a string node has none. *)
Definition contents_of (x : element) : result (list element) :=
  match x with
  | NavigableString _ => raise AttributeError
  | Tag _ _ cs => ok cs
  end.

(** [x.text]. *)
Definition text_of (lib : library) (x : element) : result str :=
  match x with
  | NavigableString s => string_text lib s
  | Tag t _ _ => ok t
  end.

Fixpoint attr_get (attrs : list (str * attr_value)) (key : str)
  : option attr_value :=
  match attrs with
  | [] => None
  | (k, v) :: rest => if str_eqb k key then Some v else attr_get rest key
  end.

(** [x.find('a')['href']]: on a string node [find] is [str.find] and
    returns an int; on a tag it returns the first [<a>] below or [None]. *)
Definition find_a_href (x : element) : result attr_value :=
  match x with
  | NavigableString _ => raise TypeError
  | Tag _ None _ => raise TypeError
  | Tag _ (Some attrs) _ =>
      match attr_get attrs (lit "href") with
      | Some v => ok v
      | None => raise KeyError
      end
  end.

Definition HOST : str := lit "https://bulbapedia.bulbagarden.net".

(** [HOST + v]. *)
Definition host_plus (v : attr_value) : result str :=
  match v with
  | AttrStr s => ok (HOST ++ s)
  | AttrList _ => raise TypeError
  end.

(** [l[i]]. *)
Definition index (l : list element) (i : nat) : result element :=
  match nth_error l i with
  | Some x => ok x
  | None => raise IndexError
  end.

(** The dict [get_pokemon] returns. *)
Record Pokemon : Type := {
  kdex : str;
  ndex : str;
  name : str;
  types : list str;
  url : str
}.

(** The [for i in range(4, len(pokemon))] loop, [types] being the list
    so far. *)
Fixpoint read_types (lib : library) (pokemon : list element)
    (indices : list nat) (types : list str) : result (list str) :=
  match indices with
  | [] => ok types
  | i :: rest =>
      let? cell := index pokemon i in
      let? t := text_of lib cell in
      read_types lib pokemon rest (types ++ [strip t])
  end.

Definition get_pokemon (lib : library) (entry : element) : result Pokemon :=
  let? contents := contents_of entry in
  let pokemon := filter ne_newline contents in
  let? c0 := index pokemon 0 in
  let? t0 := text_of lib c0 in
  let? c1 := index pokemon 1 in
  let? t1 := text_of lib c1 in
  let? c3 := index pokemon 3 in
  let? t3 := text_of lib c3 in
  let? types := read_types lib pokemon (seq 4 (length pokemon - 4)) [] in
  let? c3' := index pokemon 3 in
  let? href := find_a_href c3' in
  let? url := host_plus href in
  ok {| kdex := strip t0; ndex := strip t1; name := strip t3;
        types := types; url := url |}.

(** The list comprehension [[get_pokemon(entry) for entry in ...]]. *)
Fixpoint read_entries (lib : library) (entries : list element)
  : result (list Pokemon) :=
  match entries with
  | [] => ok []
  | entry :: rest =>
      let? p := get_pokemon lib entry in
      let? ps := read_entries lib rest in
      ok (p :: ps)
  end.

Definition get_pokemon_list (lib : library) (contents : element)
  : result (list Pokemon) :=
  let? cs := contents_of contents in
  let contents_cleaned := filter ne_newline cs in
  let contents_cleaned := tl contents_cleaned in
  read_entries lib contents_cleaned.

(** The [for pokemon_table in all_pokemon] loop, [poke_json] being the
    list so far: the list as the loop leaves it, and how the loop ends. *)
Fixpoint collect_tables (lib : library) (all_pokemon : list element)
    (poke_json : list Pokemon) : list Pokemon * result unit :=
  match all_pokemon with
  | [] => (poke_json, ok tt)
  | pokemon_table :: rest =>
      match get_pokemon_list lib pokemon_table with
      | inl exc => (poke_json, inl exc)
      | inr l => collect_tables lib rest (poke_json ++ l)
      end
  end.

(** [s] neither starts nor ends with a whitespace character. *)
Definition trimmed (s : str) : Prop :=
  (forall ch t, s = ch :: t -> isspace ch = false) /\
  (forall t ch, s = t ++ [ch] -> isspace ch = false).

Definition is_tag (x : element) : bool :=
  match x with
  | Tag _ _ _ => true
  | NavigableString _ => false
  end.

(** The text of a tag. *)
Definition tag_text (x : element) : str :=
  match x with
  | Tag t _ _ => t
  | NavigableString s => s
  end.

(** Sample nodes. *)
Definition strings_raise : library :=
  {| string_text := fun _ => raise AttributeError |}.

Definition cell (t : str) : element := Tag t None [NavigableString t].

Definition name_cell (t href : str) : element :=
  Tag t (Some [ (lit "href", AttrStr href); (lit "title", AttrStr t) ])
      [NavigableString newline].

Definition row (kd nd nm href : str) (tys : list str) : element :=
  Tag [] None
    (NavigableString newline :: cell kd ::
     NavigableString newline :: cell nd ::
     NavigableString newline :: Tag [] None [] ::
     NavigableString newline :: name_cell nm href ::
     flat_map (fun t => [NavigableString newline; cell t]) tys
     ++ [NavigableString newline]).

Definition header : element :=
  Tag (lit "Kdex Ndex MS Pokemon Type") None
      [NavigableString newline; cell (lit "Kdex")].

Definition bulbasaur : element :=
  row (lit " #001" ++ newline) (lit " #001" ++ newline)
      (lit " Bulbasaur" ++ newline) (lit "/wiki/Bulbasaur")
      [lit " Grass" ++ newline; lit " Poison" ++ newline].

Definition charmander : element :=
  row (lit " #004" ++ newline) (lit " #004" ++ newline)
      (lit " Charmander" ++ newline) (lit "/wiki/Charmander")
      [lit " Fire" ++ newline].

(** A row with three cells only. *)
Definition short_row : element :=
  Tag [] None [cell (lit "a"); NavigableString newline; cell (lit "b");
               cell (lit "c")].

Definition table : element :=
  Tag [] None
    [NavigableString newline; header; NavigableString newline; bulbasaur;
     NavigableString newline; charmander; NavigableString newline].

End Scraper.

(** The keys of a record the collection loop reads. *)
Definition read_keys : list str :=
  [ lit "type"; lit "webTitle"; lit "webPublicationDate"; lit "tags";
    lit "blocks" ].

(* ================================================================== *)
(** * Properties *)

(** ** Strings: prefixes and the replace scan *)

Section StrFacts.

Lemma str_eqb_eq (a b : str) : str_eqb a b = true <-> a = b.
Proof.
  revert b; induction a as [|x a IH]; intros [|y b]; simpl;
    try (split; [discriminate | discriminate]); try tauto.
  rewrite andb_true_iff, N.eqb_eq, IH.
  split; [intros [-> ->]; reflexivity | intros H; inversion H; auto].
Qed.

Lemma str_eqb_refl (a : str) : str_eqb a a = true.
Proof. apply str_eqb_eq; reflexivity. Qed.

Lemma str_eqb_neq (a b : str) : str_eqb a b = false <-> a <> b.
Proof.
  rewrite <- str_eqb_eq. destruct (str_eqb a b); split; congruence.
Qed.

Lemma startswith_app (s p : str) :
  startswith s p = true <-> exists r, s = p ++ r.
Proof.
  revert s; induction p as [|x p IH]; intros s; simpl.
  - split; [intros _; exists s; reflexivity | destruct s; reflexivity].
  - destruct s as [|y s]; simpl.
    + split; [discriminate | intros [r Hr]; discriminate].
    + rewrite andb_true_iff, N.eqb_eq, IH. split.
      * intros [-> [r ->]]. exists r; reflexivity.
      * intros [r Hr]. inversion Hr; subst. split; [reflexivity | eauto].
Qed.

Lemma startswith_skipn (s p : str) :
  startswith s p = true -> s = p ++ skipn (length p) s.
Proof.
  intros H. apply startswith_app in H. destruct H as [r ->].
  rewrite skipn_app, skipn_all, Nat.sub_diag. reflexivity.
Qed.

Lemma replace_scan_fuel (old new : str) :
  old <> [] ->
  forall f1 f2 s, length s <= f1 -> length s <= f2 ->
    replace_scan f1 s old new = replace_scan f2 s old new.
Proof.
  intros Hold. destruct old as [|o old']; [congruence|].
  induction f1 as [|f1 IH]; intros f2 s H1 H2.
  - destruct s; [|simpl in H1; lia]. destruct f2; reflexivity.
  - destruct f2 as [|f2].
    + destruct s; [reflexivity | simpl in H2; lia].
    + destruct s as [|c t]; [reflexivity|]. cbn [replace_scan].
      cbn [length] in H1, H2.
      destruct (startswith (c :: t) (o :: old')).
      * f_equal. cbn [length skipn].
        apply IH; rewrite length_skipn; lia.
      * f_equal. apply IH; lia.
Qed.

Lemma replace_nil (old new : str) : old <> [] -> replace [] old new = [].
Proof. destruct old; [congruence | reflexivity]. Qed.

Lemma replace_skip (c : N) (t old new : str) :
  startswith (c :: t) old = false ->
  replace (c :: t) old new = c :: replace t old new.
Proof.
  intros E. destruct old as [|o old']; [discriminate|].
  unfold replace. cbn [length replace_scan]. rewrite E. reflexivity.
Qed.

Lemma replace_match (s old new : str) :
  old <> [] -> startswith s old = true ->
  replace s old new = new ++ replace (skipn (length old) s) old new.
Proof.
  intros Hold E. destruct old as [|o old']; [congruence|].
  destruct s as [|c t]; [discriminate|].
  unfold replace. cbn [length replace_scan]. rewrite E.
  f_equal. cbn [skipn]. apply replace_scan_fuel; [congruence | |lia].
  rewrite length_skipn; lia.
Qed.

Lemma replace_match_app (r old new : str) :
  old <> [] -> replace (old ++ r) old new = new ++ replace r old new.
Proof.
  intros Hold. rewrite replace_match; auto.
  - rewrite skipn_app, skipn_all, Nat.sub_diag. reflexivity.
  - apply startswith_app. eauto.
Qed.


(** Induction along the scan for [old]. *)
Lemma scan_ind (old : str) (P : str -> Prop) :
  old <> [] ->
  P [] ->
  (forall r, P r -> P (old ++ r)) ->
  (forall c t, startswith (c :: t) old = false -> P t -> P (c :: t)) ->
  forall s, P s.
Proof.
  intros Hold Hnil Hmatch Hskip s.
  remember (length s) as n eqn:Hn. revert s Hn.
  induction n as [n IH] using lt_wf_ind. intros s Hn.
  destruct s as [|c t]; [exact Hnil|].
  destruct (startswith (c :: t) old) eqn:E.
  - rewrite (startswith_skipn _ _ E).
    destruct old as [|o old']; [congruence|].
    apply Hmatch. apply (IH (length (skipn (length (o :: old')) (c :: t)))); auto.
      rewrite length_skipn. simpl in *. lia.
  - apply Hskip; auto. apply (IH (length t)); simpl in Hn; auto; lia.
Qed.

End StrFacts.

(** ** Occurrences and what a substitution does to them *)

Section Occurrences.

Lemma occurs_cons (q : str) (c : N) (s : str) :
  occurs q (c :: s) <-> startswith (c :: s) q = true \/ occurs q s.
Proof.
  split.
  - intros [a [b H]]. destruct a as [|x a].
    + left. apply startswith_app. exists b. exact H.
    + right. inversion H; subst. exists a, b. reflexivity.
  - intros [H | [a [b ->]]].
    + apply startswith_app in H. destruct H as [r Hr].
      exists [], r. exact Hr.
    + exists (c :: a), b. reflexivity.
Qed.

Lemma occurs_nil_inv (q : str) : occurs q [] -> q = [].
Proof.
  intros [a [b H]]. symmetry in H.
  apply app_eq_nil in H. destruct H as [_ H].
  apply app_eq_nil in H. tauto.
Qed.

Lemma occurs_app_r (q p s : str) : occurs q s -> occurs q (p ++ s).
Proof.
  intros [a [b ->]]. exists (p ++ a), b. rewrite app_assoc. reflexivity.
Qed.

Lemma contains_occurs (s q : str) : contains s q = true <-> occurs q s.
Proof.
  induction s as [|c s IH].
  - cbn [contains]. rewrite orb_false_r. split.
    + intros H. apply startswith_app in H. destruct H as [r Hr].
      exists [], r. exact Hr.
    + intros H. apply occurs_nil_inv in H. subst. reflexivity.
  - cbn [contains]. rewrite orb_true_iff, IH, occurs_cons. tauto.
Qed.

Lemma freshb_fresh (new q : str) : freshb new q = true -> fresh new q.
Proof.
  unfold freshb, fresh. rewrite forallb_forall. intros H c Hc Hq.
  specialize (H c Hc). apply negb_true_iff in H.
  assert (E : existsb (N.eqb c) q = true).
  { apply existsb_exists. exists c. split; [exact Hq | apply N.eqb_refl]. }
  congruence.
Qed.

Lemma fresh_tail (new q : str) (x : N) : fresh new (x :: q) -> fresh new q.
Proof. intros H c Hc Hq. apply (H c Hc). right. exact Hq. Qed.

Lemma occurs_app_fresh (new q s : str) :
  q <> [] -> fresh new q -> occurs q (new ++ s) -> occurs q s.
Proof.
  intros Hq Hf. induction new as [|r new IH]; [auto|].
  simpl. intros H. apply occurs_cons in H. destruct H as [H | H].
  - exfalso. destruct q as [|x q]; [congruence|].
    simpl in H. apply andb_true_iff in H. destruct H as [H _].
    apply N.eqb_eq in H. subst.
    apply (Hf r); simpl; auto.
  - apply IH; auto. intros c Hc. apply Hf. right. exact Hc.
Qed.

(** A prefix of the output that avoids the characters of [new] is a
    prefix of the input. *)
Lemma startswith_replace (old new : str) :
  old <> [] -> new <> [] ->
  forall s q, fresh new q ->
    startswith (replace s old new) q = true -> startswith s q = true.
Proof.
  intros Hold Hnew s. pattern s. apply (scan_ind old); auto; clear s.
  - intros q Hf H. rewrite replace_nil in H; auto.
  - intros s IH q Hf H.
    destruct q as [|x q]; [destruct (old ++ s); reflexivity|].
    exfalso. rewrite replace_match_app in H; auto.
    destruct new as [|r new]; [congruence|].
    simpl in H. apply andb_true_iff in H. destruct H as [H _].
    apply N.eqb_eq in H. subst. apply (Hf r); simpl; auto.
  - intros c t E IH q Hf H. rewrite replace_skip in H; auto.
    destruct q as [|x q]; [reflexivity|].
    simpl in H |- *. apply andb_true_iff in H. destruct H as [H1 H2].
    rewrite H1. simpl. apply IH; auto. eapply fresh_tail; eauto.
Qed.

(** A substitution creates no occurrence of a sequence its replacement
    text shares no character with. *)
Lemma replace_no_new_occurrence (old new q : str) :
  old <> [] -> new <> [] -> q <> [] -> fresh new q ->
  forall s, ~ occurs q s -> ~ occurs q (replace s old new).
Proof.
  intros Hold Hnew Hq Hf s. pattern s. apply (scan_ind old); auto; clear s.
  - intros _. rewrite replace_nil; auto.
    intros H. apply occurs_nil_inv in H. contradiction.
  - intros r IH Hs H. rewrite replace_match_app in H; auto.
    apply occurs_app_fresh in H; auto.
    revert H. apply IH. intros H. apply Hs. apply occurs_app_r. exact H.
  - intros c t E IH Hs H.
    assert (Hout : replace (c :: t) old new = c :: replace t old new)
      by (apply replace_skip; exact E).
    rewrite Hout in H. apply occurs_cons in H. destruct H as [H | H].
    + apply Hs. apply occurs_cons. left.
      rewrite <- Hout in H. exact (startswith_replace _ _ Hold Hnew _ _ Hf H).
    + revert H. apply IH. intros H. apply Hs. apply occurs_cons. auto.
Qed.

(** A substitution leaves no occurrence of its own pattern when the
    replacement text shares no character with it. *)
Lemma replace_removes (old new : str) :
  old <> [] -> new <> [] -> fresh new old ->
  forall s, ~ occurs old (replace s old new).
Proof.
  intros Hold Hnew Hf s. pattern s. apply (scan_ind old); auto; clear s.
  - rewrite replace_nil; auto.
    intros H. apply occurs_nil_inv in H. contradiction.
  - intros r IH H. rewrite replace_match_app in H; auto.
    apply occurs_app_fresh in H; auto.
  - intros c t E IH H.
    assert (Hout : replace (c :: t) old new = c :: replace t old new)
      by (apply replace_skip; exact E).
    rewrite Hout in H. apply occurs_cons in H. destruct H as [H | H]; auto.
    rewrite <- Hout in H.
    pose proof (startswith_replace _ _ Hold Hnew _ _ Hf H). congruence.
Qed.

End Occurrences.

(** ** Substitutions that do not interfere commute *)

Section Commutation.

Lemma prefix_comparable (a b x y : str) :
  a ++ x = b ++ y -> startswith a b = true \/ startswith b a = true.
Proof.
  revert b; induction a as [|c a IH]; intros b H.
  - right. destruct b; reflexivity.
  - destruct b as [|d b]; [left; reflexivity|].
    inversion H; subst. simpl. rewrite N.eqb_refl. simpl.
    apply IH. assumption.
Qed.

Lemma nonempty_neq (s : str) : nonempty s = true -> s <> [].
Proof. destruct s; [discriminate | congruence]. Qed.

(** A block no occurrence of [old] can start in passes through. *)
Lemma replace_app_no_overlap (old new w r : str) :
  old <> [] -> no_overlap w old = true ->
  replace (w ++ r) old new = w ++ replace r old new.
Proof.
  intros Hold. induction w as [|c w IH]; intros H; [reflexivity|].
  cbn [no_overlap] in H. apply andb_true_iff in H. destruct H as [Hi Hw].
  unfold incomparable in Hi. apply andb_true_iff in Hi.
  destruct Hi as [H1 H2]. apply negb_true_iff in H1, H2.
  assert (E : startswith ((c :: w) ++ r) old = false).
  { destruct (startswith ((c :: w) ++ r) old) eqn:E; [|reflexivity].
    apply startswith_app in E. destruct E as [y Hy].
    destruct (prefix_comparable _ _ _ _ Hy); congruence. }
  simpl app in *. rewrite replace_skip by exact E.
  rewrite IH by exact Hw. reflexivity.
Qed.

Lemma replace_commute (p1 p2 : str * str) :
  independent p1 p2 = true ->
  commute (fun s => apply_subst s p1) (fun s => apply_subst s p2).
Proof.
  destruct p1 as [old1 new1], p2 as [old2 new2].
  unfold independent, apply_subst, commute. cbn [fst snd].
  rewrite !andb_true_iff.
  intros [[[[[[[[[O1 N1] O2] N2] F12] F21] V12] V21] W12] W21].
  apply nonempty_neq in O1, N1, O2, N2.
  apply freshb_fresh in F12, F21.
  intros s. remember (length s) as n eqn:Hn. revert s Hn.
  induction n as [n IH] using lt_wf_ind. intros s Hn.
  destruct s as [|c t].
  - rewrite !replace_nil; auto.
  - destruct (startswith (c :: t) old1) eqn:E1.
    + rewrite (startswith_skipn _ _ E1).
      set (r := skipn (length old1) (c :: t)).
      assert (Hr : length r < n).
      { unfold r. rewrite length_skipn. destruct old1; [congruence|].
        simpl in *. lia. }
      rewrite (replace_app_no_overlap _ new2 _ r O2 V12).
      rewrite !replace_match_app by assumption.
      rewrite (replace_app_no_overlap _ new2 _ _ O2 W12).
      f_equal. apply (IH _ Hr). reflexivity.
    + destruct (startswith (c :: t) old2) eqn:E2.
      * rewrite (startswith_skipn _ _ E2).
        set (r := skipn (length old2) (c :: t)).
        assert (Hr : length r < n).
        { unfold r. rewrite length_skipn. destruct old2; [congruence|].
          simpl in *. lia. }
        rewrite (replace_app_no_overlap _ new1 _ r O1 V21).
        rewrite !replace_match_app by assumption.
        rewrite (replace_app_no_overlap _ new1 _ _ O1 W21).
        f_equal. apply (IH _ Hr). reflexivity.
      * assert (K1 : startswith (replace (c :: t) old2 new2) old1 = false).
        { destruct (startswith (replace (c :: t) old2 new2) old1) eqn:K;
            [|reflexivity].
          pose proof (startswith_replace _ _ O2 N2 _ _ F21 K). congruence. }
        assert (K2 : startswith (replace (c :: t) old1 new1) old2 = false).
        { destruct (startswith (replace (c :: t) old1 new1) old2) eqn:K;
            [|reflexivity].
          pose proof (startswith_replace _ _ O1 N1 _ _ F12 K). congruence. }
        rewrite (replace_skip _ _ _ new2 E2) in K1 |- *.
        rewrite (replace_skip _ _ _ new1 E1) in K2 |- *.
        rewrite (replace_skip _ _ _ new1 K1), (replace_skip _ _ _ new2 K2).
        f_equal. apply (IH (length t)); [simpl in Hn; lia | reflexivity].
Qed.

Lemma commute_refl (f : str -> str) : commute f f.
Proof. intros s. reflexivity. Qed.

(** Folding substitutions that commute pairwise does not depend on the
    order. *)
Lemma fold_left_permutation (f : str -> str * str -> str)
    (l l' : list (str * str)) :
  Permutation l l' ->
  (forall x y, In x l -> In y l ->
     commute (fun s => f s x) (fun s => f s y)) ->
  forall s, fold_left f l s = fold_left f l' s.
Proof.
  induction 1 as [| x l l' HP IH | x y l | l l' l'' HP1 IH1 HP2 IH2];
    intros Hc s.
  - reflexivity.
  - simpl. apply IH. intros a b Ha Hb. apply Hc; right; assumption.
  - simpl. f_equal. apply (Hc x y); simpl; auto.
  - rewrite IH1 by assumption. apply IH2.
    intros a b Ha Hb. apply Hc; eapply Permutation_in;
      try eassumption; apply Permutation_sym; assumption.
Qed.

End Commutation.

(** ** clean_text *)

Section CleanText.

Lemma clean_text_table (s : str) : clean_text s = apply_table repair_table s.
Proof. reflexivity. Qed.

Ltac side_condition :=
  solve [ let H := fresh in intro H; vm_compute in H; discriminate H
        | apply freshb_fresh; vm_compute; reflexivity ].

Ltac through_chain :=
  first
    [ apply replace_removes; side_condition
    | apply replace_no_new_occurrence;
      [ side_condition | side_condition | side_condition | side_condition
      | through_chain ] ].

Lemma clean_text_repaired (s : str) : repaired (clean_text s).
Proof.
  intros p Hp. unfold mis_decoded, repair_table in Hp. cbn [map fst In] in Hp.
  unfold clean_text.
  repeat (destruct Hp as [<- | Hp]; [through_chain|]).
  contradiction.
Qed.

Lemma repair_table_independent (x y : str * str) :
  In x repair_table -> In y repair_table ->
  x = y \/ independent x y = true.
Proof.
  unfold repair_table. cbn [In]. intros Hx Hy.
  repeat (destruct Hx as [<- | Hx]; [|try contradiction]);
  repeat (destruct Hy as [<- | Hy]; [|try contradiction]);
  first [ left; reflexivity | right; vm_compute; reflexivity ].
Qed.

Lemma repair_table_commute (x y : str * str) :
  In x repair_table -> In y repair_table ->
  commute (fun s => apply_subst s x) (fun s => apply_subst s y).
Proof.
  intros Hx Hy. destruct (repair_table_independent x y Hx Hy) as [-> | H].
  - apply commute_refl.
  - apply replace_commute. exact H.
Qed.

End CleanText.

(** C5.  The seven substitutions of the repair table may be applied in
    any order: every permutation of the table maps every string to the
    string [clean_text] returns. *)
Theorem clean_text_any_order :
  forall (table : list (str * str)) (s : str),
    Permutation repair_table table ->
    apply_table table s = clean_text s.
Proof.
  intros table s HP. rewrite clean_text_table. unfold apply_table.
  symmetry. apply fold_left_permutation; [exact HP|].
  intros x y Hx Hy. apply repair_table_commute; assumption.
Qed.

Lemma clean_text_any_order_witness :
  Permutation repair_table (rev repair_table) /\
  apply_table (rev repair_table)
    ([0x49; 0x74] ++ mis_rsquo ++ [0x73; 0x20] ++ mis_eacute ++ mis_endash)%N
  = clean_text
    ([0x49; 0x74] ++ mis_rsquo ++ [0x73; 0x20] ++ mis_eacute ++ mis_endash)%N.
Proof.
  split.
  - apply Permutation_rev.
  - apply (clean_text_any_order (rev repair_table)). apply Permutation_rev.
Defined.

(** ** One entry *)

Section Entry.

Lemma py_ne_false (v : json) (s : str) : py_ne v s = false <-> v = JStr s.
Proof.
  destruct v; simpl; try (split; [discriminate | discriminate]).
  rewrite negb_false_iff, str_eqb_eq. split; congruence.
Qed.

Lemma call_clean_text_ok (v : json) (t : str) :
  call_clean_text v = ok t -> exists s, v = JStr s /\ t = clean_text s.
Proof.
  destruct v; simpl; try discriminate.
  intros H. inversion H. eauto.
Qed.

Lemma has_kind_getitem (v ty : json) (k : str) :
  getitem v (lit "type") = inr ty -> has_kind v k = negb (py_ne ty k).
Proof.
  intros H. unfold has_kind, kind_of. rewrite H.
  destruct ty; simpl; try reflexivity.
  rewrite negb_involutive. reflexivity.
Qed.

(** What the tag loop returns, when it returns. *)
Lemma collect_authors_ok (tags : list json) :
  forall acc out,
    collect_authors tags acc = ok out ->
    out = acc ++ map (fun t => clean_text (tag_name t))
                     (filter (fun t => has_kind t (lit "contributor")) tags)
    /\ Forall (fun t => exists ty, getitem t (lit "type") = ok ty /\
                 (ty = JStr (lit "contributor") ->
                    exists s, getitem t (lit "webTitle") = ok (JStr s))) tags.
Proof.
  induction tags as [|tag rest IH]; intros acc out H.
  - simpl in H. inversion H. rewrite app_nil_r. split; [reflexivity | constructor].
  - cbn [collect_authors] in H. unfold rbind in H.
    destruct (getitem tag (lit "type")) as [e | ty] eqn:Ety; [discriminate|].
    destruct (py_ne ty (lit "contributor")) eqn:Ene.
    + apply IH in H. destruct H as [-> HF]. split.
      * cbn [filter]. rewrite (has_kind_getitem _ _ _ Ety), Ene. reflexivity.
      * constructor; [|exact HF]. exists ty. split; [exact Ety|].
        intros ->. cbn [py_ne] in Ene. rewrite str_eqb_refl in Ene.
        discriminate.
    + apply py_ne_false in Ene. subst ty.
      destruct (getitem tag (lit "webTitle")) as [e | name] eqn:Ename;
        [discriminate|].
      destruct (call_clean_text name) as [e | cleaned] eqn:Ecl; [discriminate|].
      apply call_clean_text_ok in Ecl. destruct Ecl as [s [-> ->]].
      apply IH in H. destruct H as [-> HF]. split.
      * cbn [filter]. rewrite (has_kind_getitem _ _ _ Ety).
        cbn [py_ne]. rewrite str_eqb_refl. cbn [negb map].
        assert (Hn : tag_name tag = s)
          by (unfold tag_name; rewrite Ename; reflexivity).
        rewrite Hn, <- app_assoc. reflexivity.
      * constructor; [|exact HF]. exists (JStr (lit "contributor")).
        split; [exact Ety|]. intros _. exists s. exact Ename.
Qed.

(** What an appended dict is made of. *)
Lemma entry_article_some (entry : json) (a : CollectedArticle) :
  entry_article entry = ok (Some a) ->
  getitem entry (lit "type") = ok (JStr (lit "article")) /\
  (exists s, getitem entry (lit "webTitle") = ok (JStr s) /\
             title a = clean_text s) /\
  getitem entry (lit "webPublicationDate") = ok (date a) /\
  (exists tags tag_list,
     getitem entry (lit "tags") = ok tags /\ py_iter tags = ok tag_list /\
     collect_authors tag_list [] = ok (authors a)) /\
  (exists block s,
     first_block entry = ok block /\
     getitem block (lit "bodyTextSummary") = ok (JStr s) /\
     text a = clean_text s).
Proof.
  unfold entry_article, first_block, rbind. intros H.
  destruct (getitem entry (lit "type")) as [e | ty] eqn:Ety; [discriminate|].
  destruct (py_ne ty (lit "article")) eqn:Ene; [discriminate|].
  apply py_ne_false in Ene. subst ty.
  destruct (getitem entry (lit "webTitle")) as [e | wt] eqn:Ewt; [discriminate|].
  destruct (call_clean_text wt) as [e | ti] eqn:Eti; [discriminate|].
  destruct (getitem entry (lit "webPublicationDate")) as [e | d] eqn:Ed;
    [discriminate|].
  destruct (getitem entry (lit "tags")) as [e | tags] eqn:Etags; [discriminate|].
  destruct (py_iter tags) as [e | tl] eqn:Etl; [discriminate|].
  destruct (collect_authors tl []) as [e | au] eqn:Eau; [discriminate|].
  destruct (getitem entry (lit "blocks")) as [e | bl] eqn:Ebl; [discriminate|].
  destruct (getitem bl (lit "body")) as [e | bo] eqn:Ebo; [discriminate|].
  destruct (getitem0 bo) as [e | b0] eqn:Eb0; [discriminate|].
  destruct (getitem b0 (lit "bodyTextSummary")) as [e | sm] eqn:Esm;
    [discriminate|].
  destruct (call_clean_text sm) as [e | tx] eqn:Etx; [discriminate|].
  inversion H; subst a; clear H. cbn [title date authors text].
  apply call_clean_text_ok in Eti, Etx.
  destruct Eti as [s1 [-> ->]], Etx as [s2 [-> ->]].
  repeat split; eauto.
Qed.

End Entry.

(** ** Well-formed records are processed without a fault *)

Section WellFormed.

Lemma has_str_getitem (v : json) (key : str) :
  has_str v key = true -> exists s, getitem v key = inr (JStr s).
Proof.
  unfold has_str. destruct (getitem v key) as [e | x]; [discriminate|].
  destruct x; try discriminate. eauto.
Qed.

Lemma has_kind_type (v : json) (k : str) :
  has_kind v k = true -> getitem v (lit "type") = inr (JStr k).
Proof.
  unfold has_kind, kind_of.
  destruct (getitem v (lit "type")) as [e | x]; [discriminate|].
  destruct x; try discriminate.
  intros H. apply str_eqb_eq in H. subst. reflexivity.
Qed.

Lemma collect_authors_wf (tags : list json) :
  forallb tag_wf tags = true ->
  forall acc, exists out, collect_authors tags acc = ok out.
Proof.
  induction tags as [|tag rest IH]; intros H acc.
  - exists acc. reflexivity.
  - cbn [forallb] in H. apply andb_true_iff in H. destruct H as [Ht Hr].
    unfold tag_wf in Ht. apply andb_true_iff in Ht. destruct Ht as [H1 H2].
    apply has_str_getitem in H1, H2.
    destruct H1 as [k Hk], H2 as [n Hn].
    cbn [collect_authors]. rewrite Hk. cbn [rbind ok].
    destruct (py_ne (JStr k) (lit "contributor")).
    + apply IH. exact Hr.
    + rewrite Hn. cbn [rbind ok call_clean_text]. apply IH. exact Hr.
Qed.

Lemma entry_article_wf (entry : json) :
  article_wf entry = true -> exists a, entry_article entry = ok (Some a).
Proof.
  unfold article_wf. rewrite !andb_true_iff.
  intros [[[[Hk Ht] Hd] Htags] Hb].
  apply has_kind_type in Hk. apply has_str_getitem in Ht, Hd.
  destruct Ht as [t Ht], Hd as [d Hd].
  destruct (getitem entry (lit "tags")) as [e | tags] eqn:Etags; [discriminate|].
  destruct tags as [| | | | tags |]; try discriminate.
  destruct (collect_authors_wf tags Htags []) as [au Hau].
  destruct (getitem entry (lit "blocks")) as [e | bl] eqn:Ebl; [discriminate|].
  destruct (getitem bl (lit "body")) as [e | bo] eqn:Ebo; [discriminate|].
  destruct bo as [| | | | bo |]; try discriminate.
  destruct bo as [|b0 bo]; [discriminate|].
  apply has_str_getitem in Hb. destruct Hb as [sm Hsm].
  unfold entry_article. rewrite Hk. cbn [rbind ok py_ne].
  rewrite str_eqb_refl. cbn [negb].
  rewrite Ht. cbn [rbind ok call_clean_text]. rewrite Hd. cbn [rbind ok].
  rewrite Etags. cbn [rbind ok py_iter]. rewrite Hau. cbn [rbind ok].
  rewrite Ebl. cbn [rbind ok]. rewrite Ebo. cbn [rbind ok getitem0].
  rewrite Hsm. cbn [rbind ok call_clean_text]. eauto.
Qed.

(** A record of another kind is passed over whatever else it holds. *)
Lemma entry_article_other_kind (entry ty : json) :
  getitem entry (lit "type") = inr ty -> ty <> JStr (lit "article") ->
  entry_article entry = ok None.
Proof.
  intros Hty Hne. unfold entry_article. rewrite Hty. cbn [rbind ok].
  destruct (py_ne ty (lit "article")) eqn:E; [reflexivity|].
  apply py_ne_false in E. contradiction.
Qed.

Lemma entry_article_record_wf (entry : json) :
  record_wf entry = true -> exists o, entry_article entry = ok o.
Proof.
  unfold record_wf. destruct (kind_of entry) as [k|] eqn:Ek; [|discriminate].
  destruct (str_eqb k (lit "article")) eqn:E; intros H.
  - destruct (entry_article_wf entry H) as [a Ha]. eauto.
  - exists None. unfold kind_of in Ek.
    destruct (getitem entry (lit "type")) as [e | ty] eqn:Ety; [discriminate|].
    destruct ty; try discriminate. inversion Ek; subst.
    apply (entry_article_other_kind _ _ Ety).
    intros Heq. inversion Heq; subst. rewrite str_eqb_refl in E. discriminate.
Qed.

Lemma gather_wf (entries : list json) :
  Forall (fun e => record_wf e = true) entries ->
  snd (gather entries) = ok tt.
Proof.
  induction 1 as [|e rest He _ IH]; [reflexivity|].
  cbn [gather]. destruct (entry_article_record_wf e He) as [o Ho].
  rewrite Ho. unfold ok. destruct o; [exact IH | exact IH].
Qed.

Lemma gather_articles_length (entries : list json) :
  Forall (fun e => article_wf e = true) entries ->
  length (page_articles entries) = length entries
  /\ snd (gather entries) = ok tt.
Proof.
  unfold page_articles.
  induction 1 as [|e rest He _ [IH1 IH2]]; [split; reflexivity|].
  cbn [gather]. destruct (entry_article_wf e He) as [a Ha].
  rewrite Ha. unfold ok. cbn [fst snd length]. auto.
Qed.

(** A fault in the middle of a page: what came before is gathered. *)
Lemma gather_fault (good rest : list json) (bad : json) (exc : pyexc) :
  snd (gather good) = ok tt -> entry_article bad = inl exc ->
  gather (good ++ bad :: rest) = (page_articles good, inl exc).
Proof.
  unfold page_articles. intros Hg Hb.
  induction good as [|e good IH]; cbn [app gather].
  - rewrite Hb. reflexivity.
  - cbn [gather] in Hg.
    destruct (entry_article e) as [x | [a|]]; [discriminate | |].
    + cbn [fst snd] in *. rewrite (IH Hg). reflexivity.
    + apply IH. exact Hg.
Qed.

Lemma gather_provenance (entries : list json) :
  Forall (fun a => exists e, In e entries /\ entry_article e = ok (Some a))
         (page_articles entries).
Proof.
  unfold page_articles. induction entries as [|e rest IH]; [constructor|].
  cbn [gather]. destruct (entry_article e) as [x | [a|]] eqn:E; cbn [fst].
  - constructor.
  - constructor.
    + exists e. split; [left; reflexivity | exact E].
    + eapply Forall_impl; [|exact IH]. intros b [e' [Hin He']].
      exists e'. split; [right; exact Hin | exact He'].
  - eapply Forall_impl; [|exact IH]. intros b [e' [Hin He']].
    exists e'. split; [right; exact Hin | exact He'].
Qed.

End WellFormed.

(** ** The loops *)

Section Loops.

Variable w : world.
Variable c : settings.

Lemma state_eta (st : state) :
  {| all_articles := all_articles st; requested := requested st;
     stdout := stdout st |} = st.
Proof. destruct st; reflexivity. Qed.

(** The entry loop appends what [gather] collects and ends as it says. *)
Lemma for_each_entry_body (entries : list json) :
  forall st,
    for_each entries entry_body st =
    (snd (gather entries),
     {| all_articles := all_articles st ++ page_articles entries;
        requested := requested st; stdout := stdout st |}).
Proof.
  unfold page_articles.
  induction entries as [|e rest IH]; intros st.
  - cbn. rewrite app_nil_r, state_eta. reflexivity.
  - cbn [for_each gather]. unfold bind at 1. unfold entry_body at 1.
    unfold bind at 1. unfold lift.
    destruct (entry_article e) as [x | [a|]].
    + cbn. rewrite app_nil_r, state_eta. reflexivity.
    + unfold append_article. rewrite IH. cbn. rewrite <- app_assoc.
      reflexivity.
    + unfold ret. rewrite IH. reflexivity.
Qed.

Lemma gather_complete (entries : list json) :
  snd (gather entries) = ok tt ->
  page_articles entries = flat_map contribution entries.
Proof.
  unfold page_articles, contribution.
  induction entries as [|e rest IH]; [reflexivity|].
  cbn [gather flat_map]. destruct (entry_article e) as [x | [a|]]; cbn.
  - discriminate.
  - intros H. rewrite IH by exact H. reflexivity.
  - exact IH.
Qed.

(** A page answered with a result list. *)
Lemma page_body_results (page : Z) (recs : list json) (st : state) :
  page_results w c page recs ->
  page_body w c page st =
  (ok (page_flow c recs), after_page w c page (page_articles recs) st).
Proof.
  intros [resp [parsed [r [Hget [Hst [Hload [Hresp Hres]]]]]]].
  unfold page_body, page_try, request_api, get, print, try_except, bind, lift.
  fold (page_url w c page). cbn [all_articles requested stdout].
  rewrite Hget. unfold ok. rewrite Hst. cbn [Z.eqb Pos.eqb negb].
  unfold ok in Hload, Hresp, Hres. rewrite Hload, Hresp, Hres.
  unfold py_iter, py_len, ok. rewrite for_each_entry_body.
  cbn [all_articles requested stdout]. unfold page_flow, after_page, ret, ok.
  fold (fetching_line page).
  destruct (snd (gather recs)) as [x | []]; [reflexivity|].
  destruct (Z.of_nat (length recs) <? page_limit c)%Z; reflexivity.
Qed.

(** A page answered with a status other than 200. *)
Lemma page_body_refused (page : Z) (st : state) :
  page_refused w c page ->
  page_body w c page st = (ok Break, after_page w c page [] st).
Proof.
  intros [resp [Hget Hst]].
  unfold page_body, page_try, request_api, get, print, try_except, bind, lift.
  fold (page_url w c page). cbn [all_articles requested stdout].
  rewrite Hget. unfold ok.
  apply Z.eqb_neq in Hst. rewrite Hst. cbn [negb].
  unfold ret, after_page, ok. fold (fetching_line page).
  rewrite app_nil_r. reflexivity.
Qed.

(** Whatever the world answers, an iteration raises nothing, sends one
    request and appends articles gathered from that page only. *)
Lemma page_body_any (page : Z) (st : state) :
  exists fl arts,
    page_body w c page st = (ok fl, after_page w c page arts st) /\
    (arts = [] \/
     exists results entries,
       page_answer w c page results /\ py_iter results = ok entries /\
       arts = page_articles entries).
Proof.
  unfold page_body, page_try, request_api, get, print, try_except, bind, lift.
  fold (page_url w c page). cbn [all_articles requested stdout].
  unfold after_page. fold (fetching_line page).
  assert (Hempty : forall fl, exists fl' arts,
    (@inr pyexc flow fl,
     {| all_articles := all_articles st;
        requested := requested st ++ [page_url w c page];
        stdout := stdout st ++ [fetching_line page] |})
    = (ok fl',
       {| all_articles := all_articles st ++ arts;
          requested := requested st ++ [page_url w c page];
          stdout := stdout st ++ [fetching_line page] |})
    /\ (arts = [] \/
        exists results entries,
          page_answer w c page results /\ py_iter results = ok entries /\
          arts = page_articles entries)).
  { intros fl. exists fl, []. rewrite app_nil_r. split; [reflexivity | auto]. }
  destruct (requests_get w (page_url w c page)) as [x | resp] eqn:Hget;
    [apply Hempty|].
  destruct (Response.status_code resp =? 200)%Z eqn:Hst; cbn [negb];
    [|apply Hempty].
  destruct (json_loads w (Response.text resp)) as [x | parsed] eqn:Hload;
    [apply Hempty|].
  destruct (getitem parsed (lit "response")) as [x | r] eqn:Hresp;
    [apply Hempty|].
  destruct (getitem r (lit "results")) as [x | results] eqn:Hres;
    [apply Hempty|].
  destruct (py_iter results) as [x | entries] eqn:Hiter; [apply Hempty|].
  rewrite for_each_entry_body. cbn [all_articles requested stdout].
  assert (Hans : page_answer w c page results).
  { exists resp, parsed, r. apply Z.eqb_eq in Hst. auto. }
  destruct (snd (gather entries)) as [x | []].
  - exists Break, (page_articles entries). split; [reflexivity|].
    right. exists results, entries. auto.
  - destruct (py_len results) as [x | n].
    + exists Break, (page_articles entries). split; [reflexivity|].
      right. exists results, entries. auto.
    + exists (if (n <? page_limit c)%Z then Break else Next),
             (page_articles entries).
      split; [destruct (n <? page_limit c)%Z; reflexivity|].
      right. exists results, entries. auto.
Qed.

Lemma page_flow_next (recs : list json) :
  snd (gather recs) = ok tt ->
  (page_limit c <= Z.of_nat (length recs))%Z ->
  page_flow c recs = Next.
Proof.
  intros Hg Hlen. unfold page_flow. rewrite Hg. unfold ok.
  destruct (Z.ltb_spec (Z.of_nat (length recs)) (page_limit c));
    [lia | reflexivity].
Qed.

Lemma page_flow_short (recs : list json) :
  (Z.of_nat (length recs) < page_limit c)%Z -> page_flow c recs = Break.
Proof.
  intros Hlen. unfold page_flow. apply Z.ltb_lt in Hlen. rewrite Hlen.
  destruct (snd (gather recs)); reflexivity.
Qed.

Lemma for_break_break (page : Z) (rest : list Z) (st st' : state) :
  page_body w c page st = (ok Break, st') ->
  for_break (page :: rest) (page_body w c) st = (ok tt, st').
Proof. intros H. cbn [for_break]. unfold bind. rewrite H. reflexivity. Qed.

Lemma for_break_next (page : Z) (rest : list Z) (st st' : state) :
  page_body w c page st = (ok Next, st') ->
  for_break (page :: rest) (page_body w c) st =
  for_break rest (page_body w c) st'.
Proof. intros H. cbn [for_break]. unfold bind. rewrite H. reflexivity. Qed.

(** Full pages processed without a fault are all gone through. *)
Lemma for_break_full (recs : Z -> list json) (pages rest : list Z) :
  (forall p, In p pages ->
     page_results w c p (recs p) /\ page_flow c (recs p) = Next) ->
  forall st,
    for_break (pages ++ rest) (page_body w c) st =
    for_break rest (page_body w c) (after_pages w c recs pages st).
Proof.
  induction pages as [|p pages IH]; intros H st; [reflexivity|].
  destruct (H p (or_introl eq_refl)) as [Hres Hflow].
  cbn [app]. rewrite (for_break_next p _ st _
    (eq_trans (page_body_results p (recs p) st Hres)
              (f_equal (fun f => (ok f, _)) Hflow))).
  unfold after_pages. cbn [fold_left]. apply IH.
  intros q Hq. apply H. right. exact Hq.
Qed.

Lemma after_pages_articles (recs : Z -> list json) (pages : list Z) :
  forall st,
    all_articles (after_pages w c recs pages st) =
    all_articles st ++ flat_map (fun p => page_articles (recs p)) pages.
Proof.
  unfold after_pages. induction pages as [|p pages IH]; intros st.
  - cbn. rewrite app_nil_r. reflexivity.
  - cbn [fold_left flat_map]. rewrite IH. cbn [after_page all_articles].
    rewrite app_assoc. reflexivity.
Qed.

Lemma after_pages_requested (recs : Z -> list json) (pages : list Z) :
  forall st,
    requested (after_pages w c recs pages st) =
    requested st ++ map (page_url w c) pages.
Proof.
  unfold after_pages. induction pages as [|p pages IH]; intros st.
  - cbn. rewrite app_nil_r. reflexivity.
  - cbn [fold_left map]. rewrite IH. cbn [after_page requested].
    rewrite <- app_assoc. reflexivity.
Qed.

(** Whatever the world answers, the page loop raises nothing, sends at
    most one request per page and only appends articles made from
    entries it fetched. *)
Lemma for_break_any (pages : list Z) :
  forall st, exists st',
    for_break pages (page_body w c) st = (ok tt, st') /\
    (length (requested st') <= length (requested st) + length pages)%nat /\
    exists extra,
      all_articles st' = all_articles st ++ extra /\
      Forall (fun a => exists page e,
                In page pages /\ fetched_entry w c page e /\
                entry_article e = ok (Some a)) extra.
Proof.
  induction pages as [|p pages IH]; intros st.
  - exists st. split; [reflexivity|]. split; [cbn; lia|].
    exists []. rewrite app_nil_r. split; [reflexivity | constructor].
  - destruct (page_body_any p st) as [fl [arts [Hbody Harts]]].
    assert (Hprov : Forall (fun a => exists page e,
                In page (p :: pages) /\ fetched_entry w c page e /\
                entry_article e = ok (Some a)) arts).
    { destruct Harts as [-> | [results [entries [Hans [Hiter ->]]]]];
        [constructor|].
      eapply Forall_impl; [|apply gather_provenance].
      intros a [e [Hin He]]. exists p, e. split; [left; reflexivity|].
      split; [|exact He]. exists results, entries. auto. }
    destruct fl.
    + rewrite (for_break_next _ _ _ _ Hbody).
      destruct (IH (after_page w c p arts st)) as [st' [Hrun [Hreq [extra [Hall Hex]]]]].
      exists st'. split; [exact Hrun|]. split.
      * cbn [after_page requested] in Hreq. rewrite length_app in Hreq.
        cbn [length] in *. lia.
      * exists (arts ++ extra). split.
        -- rewrite Hall. cbn [after_page all_articles]. rewrite app_assoc.
           reflexivity.
        -- apply Forall_app. split; [exact Hprov|].
           eapply Forall_impl; [|exact Hex].
           intros a [page [e [Hin H]]]. exists page, e.
           split; [right; exact Hin | exact H].
    + rewrite (for_break_break _ _ _ _ Hbody).
      exists (after_page w c p arts st). split; [reflexivity|]. split.
      * cbn [after_page requested]. rewrite length_app. cbn [length]. lia.
      * exists arts. split; [reflexivity | exact Hprov].
Qed.

End Loops.

(** ** The page numbers *)

Section Range.

Lemma map_seq_shift (len : nat) :
  forall (f : nat -> Z) (start : nat),
    map f (seq start len) = map (fun i => f (start + i)%nat) (seq 0 len).
Proof.
  induction len as [|len IH]; intros f start; [reflexivity|].
  cbn [seq map]. rewrite Nat.add_0_r. f_equal.
  rewrite (IH f (S start)), (IH (fun i => f (start + i)%nat) 1%nat).
  apply map_ext. intros i. f_equal. lia.
Qed.

Lemma range_split (a n b : Z) :
  (a <= n <= b)%Z -> range a b = range a n ++ range n b.
Proof.
  intros H. unfold range.
  replace (Z.to_nat (b - a)) with (Z.to_nat (n - a) + Z.to_nat (b - n))%nat
    by lia.
  rewrite seq_app, map_app. f_equal. cbn [Nat.add].
  rewrite map_seq_shift. apply map_ext. intros i. lia.
Qed.

Lemma range_cons (a b : Z) : (a < b)%Z -> range a b = a :: range (a + 1) b.
Proof.
  intros H. unfold range.
  replace (Z.to_nat (b - a)) with (S (Z.to_nat (b - (a + 1)))) by lia.
  cbn [seq map]. f_equal; [lia|].
  rewrite map_seq_shift. apply map_ext. intros i. lia.
Qed.

Lemma range_In (a b p : Z) : In p (range a b) <-> (a <= p < b)%Z.
Proof.
  unfold range. rewrite in_map_iff. split.
  - intros [i [<- Hi]]. apply in_seq in Hi. lia.
  - intros H. exists (Z.to_nat (p - a)). split; [lia|].
    apply in_seq. lia.
Qed.

End Range.

(** ** Whole runs *)

Section Runs.

Variable w : world.
Variable c : settings.

Lemma run_eq (st' : state) :
  for_break (range 1 (max_limit c + 1)) (page_body w c) initial_state
    = (ok tt, st') ->
  run w c = (ok tt, {| all_articles := all_articles st';
                       requested := requested st';
                       stdout := stdout st' ++ [lit "Done!"] |}).
Proof.
  intros H. unfold run, collect, bind. rewrite H. reflexivity.
Qed.

(** The cell never raises. *)
Lemma run_no_raise : fst (run w c) = ok tt.
Proof.
  destruct (for_break_any w c (range 1 (max_limit c + 1)) initial_state)
    as [st' [H _]].
  rewrite (run_eq _ H). reflexivity.
Qed.

(** It sends at most [max_limit] requests. *)
Lemma run_requests_bounded :
  (Z.of_nat (length (requested (snd (run w c)))) <= Z.max 0 (max_limit c))%Z.
Proof.
  destruct (for_break_any w c (range 1 (max_limit c + 1)) initial_state)
    as [st' [H [Hreq _]]].
  rewrite (run_eq _ H). cbn [snd requested]. cbn [initial_state requested length] in Hreq.
  unfold range in Hreq. rewrite length_map, length_seq in Hreq. lia.
Qed.

(** Every collected article was made from an entry of a fetched page. *)
Lemma run_provenance (a : CollectedArticle) :
  In a (all_articles (snd (run w c))) ->
  exists page e,
    (1 <= page <= max_limit c)%Z /\ fetched_entry w c page e /\
    entry_article e = ok (Some a).
Proof.
  destruct (for_break_any w c (range 1 (max_limit c + 1)) initial_state)
    as [st' [H [_ [extra [Hall Hex]]]]].
  rewrite (run_eq _ H). cbn [snd all_articles]. rewrite Hall.
  cbn [initial_state all_articles app]. intros Hin.
  rewrite Forall_forall in Hex.
  destruct (Hex a Hin) as [page [e [Hp [Hf He]]]].
  exists page, e. apply range_In in Hp. split; [lia | auto].
Qed.

(** A run whose first [n - 1] pages are full and processed without a
    fault reaches page [n] with their articles. *)
Lemma run_reaches (recs : Z -> list json) (n : Z) (st' : state) :
  (1 <= n <= max_limit c)%Z ->
  (forall p, (1 <= p < n)%Z ->
     page_results w c p (recs p) /\ snd (gather (recs p)) = ok tt /\
     (page_limit c <= Z.of_nat (length (recs p)))%Z) ->
  for_break (n :: range (n + 1) (max_limit c + 1)) (page_body w c)
    (after_pages w c recs (range 1 n) initial_state) = (ok tt, st') ->
  run w c = (ok tt, {| all_articles := all_articles st';
                       requested := requested st';
                       stdout := stdout st' ++ [lit "Done!"] |}).
Proof.
  intros Hn Hfull Hrest. apply run_eq.
  rewrite (range_split 1 n (max_limit c + 1)) by lia.
  rewrite (range_cons n (max_limit c + 1)) by lia.
  rewrite (for_break_full w c recs); [exact Hrest|].
  intros p Hp. apply range_In in Hp.
  destruct (Hfull p Hp) as [Hres [Hg Hlen]].
  split; [exact Hres | apply page_flow_next; assumption].
Qed.

(** ... and when the iteration of page [n] ends the loop, having
    appended [arts], the run ends there. *)
Lemma run_stops_at (recs : Z -> list json) (n : Z)
    (arts : list CollectedArticle) :
  (1 <= n <= max_limit c)%Z ->
  (forall p, (1 <= p < n)%Z ->
     page_results w c p (recs p) /\ snd (gather (recs p)) = ok tt /\
     (page_limit c <= Z.of_nat (length (recs p)))%Z) ->
  (forall st, page_body w c n st = (ok Break, after_page w c n arts st)) ->
  fst (run w c) = ok tt /\
  all_articles (snd (run w c)) =
    flat_map (fun p => page_articles (recs p)) (range 1 n) ++ arts /\
  requested (snd (run w c)) = map (page_url w c) (range 1 (n + 1)).
Proof.
  intros Hn Hfull Hbody.
  rewrite (run_reaches recs n _ Hn Hfull (for_break_break w c n _ _ _ (Hbody _))).
  cbn [fst snd all_articles requested after_page].
  rewrite after_pages_articles, after_pages_requested.
  cbn [initial_state all_articles requested app].
  split; [reflexivity|]. split; [reflexivity|].
  rewrite (range_split 1 n (n + 1)) by lia.
  rewrite (range_cons n (n + 1)) by lia.
  rewrite map_app. f_equal. cbn [map]. f_equal.
  unfold range. replace (Z.to_nat (n + 1 - (n + 1))) with 0%nat by lia.
  reflexivity.
Qed.

End Runs.

(** ** The claims about the pages *)

(** C1.  Page size 50, ceiling 20: when page 1 is answered 200 with
    fifty well-formed [article] records and page 2 is answered 200 with
    thirty, the run raises nothing, sends exactly two requests (pages 1
    and 2) and ends with exactly eighty collected articles. *)
Theorem two_pages_scenario (w : world) (c : settings)
    (recs1 recs2 : list json) :
  max_limit c = 20%Z -> page_limit c = 50%Z ->
  page_results w c 1 recs1 -> length recs1 = 50%nat ->
  Forall (fun e => article_wf e = true) recs1 ->
  page_results w c 2 recs2 -> length recs2 = 30%nat ->
  Forall (fun e => article_wf e = true) recs2 ->
  fst (run w c) = ok tt /\
  requested (snd (run w c)) = [page_url w c 1; page_url w c 2] /\
  length (requested (snd (run w c))) = 2%nat /\
  all_articles (snd (run w c)) = page_articles recs1 ++ page_articles recs2 /\
  length (all_articles (snd (run w c))) = 80%nat.
Proof.
  intros Hmax Hlim H1 L1 W1 H2 L2 W2.
  destruct (gather_articles_length recs1 W1) as [A1 G1].
  destruct (gather_articles_length recs2 W2) as [A2 G2].
  set (recs := fun p => if (p =? 1)%Z then recs1 else recs2).
  assert (Hlast :
    for_break (2 :: range (2 + 1) (max_limit c + 1))%Z (page_body w c)
      (after_pages w c recs (range 1 2) initial_state)
    = (ok tt, after_page w c 2 (page_articles recs2)
                (after_pages w c recs (range 1 2) initial_state))).
  { apply for_break_break. rewrite (page_body_results w c 2 recs2 _ H2).
    rewrite page_flow_short; [reflexivity | lia]. }
  rewrite (run_reaches w c recs 2 _ (ltac:(lia)) (ltac:(
    intros p Hp; assert (p = 1%Z) as -> by lia; unfold recs; cbn;
    repeat split; [exact H1 | exact G1 | lia])) Hlast).
  cbn [fst snd all_articles requested after_page].
  rewrite after_pages_articles, after_pages_requested.
  change (range 1 2) with [1%Z]. cbn [flat_map map initial_state all_articles
    requested app]. unfold recs. cbn [Z.eqb Pos.eqb]. rewrite app_nil_r.
  repeat split. rewrite length_app. lia.
Qed.

Lemma two_pages_scenario_witness :
  length (requested (snd (run (Mock.upstream notebook_settings Mock.scenario)
                              notebook_settings))) = 2%nat /\
  length (all_articles (snd (run (Mock.upstream notebook_settings Mock.scenario)
                                 notebook_settings))) = 80%nat.
Proof.
  assert (Hwf : forall n, Forall (fun e => article_wf e = true)
                                 (repeat Mock.article n)).
  { intros n. apply Forall_forall. intros e He.
    apply repeat_spec in He. subst e. vm_compute. reflexivity. }
  destruct (two_pages_scenario
              (Mock.upstream notebook_settings Mock.scenario)
              notebook_settings (repeat Mock.article 50)
              (repeat Mock.article 30))
    as [_ [_ [Hreq [_ Hall]]]].
  - reflexivity.
  - reflexivity.
  - exists (Response.mk 200 (Mock.token 1)),
           (Mock.body (repeat Mock.article 50)),
           (JDict [ (lit "status", JStr (lit "ok"));
                    (lit "results", JList (repeat Mock.article 50)) ]).
    repeat split; vm_compute; reflexivity.
  - apply repeat_length.
  - apply Hwf.
  - exists (Response.mk 200 (Mock.token 2)),
           (Mock.body (repeat Mock.article 30)),
           (JDict [ (lit "status", JStr (lit "ok"));
                    (lit "results", JList (repeat Mock.article 30)) ]).
    repeat split; vm_compute; reflexivity.
  - apply repeat_length.
  - apply Hwf.
  - split; [exact Hreq | exact Hall].
Defined.

(** C2.  For every page number [n] up to the ceiling: when the pages
    before [n] were answered 200 with full result lists processed
    without a fault and page [n] is answered with another status, the
    run raises nothing, its last request is the one for page [n], and
    the accumulator holds exactly the articles of the records of pages
    1 to [n - 1], in order. *)
Theorem non_200_returns_earlier_pages (w : world) (c : settings)
    (recs : Z -> list json) (n : Z) :
  (1 <= n <= max_limit c)%Z ->
  (forall p, (1 <= p < n)%Z ->
     page_results w c p (recs p) /\ faultless (recs p) /\
     (page_limit c <= Z.of_nat (length (recs p)))%Z) ->
  page_refused w c n ->
  fst (run w c) = ok tt /\
  all_articles (snd (run w c)) =
    flat_map (fun p => flat_map contribution (recs p)) (range 1 n) /\
  requested (snd (run w c)) = map (page_url w c) (range 1 (n + 1)).
Proof.
  intros Hn Hfull Hrefused.
  destruct (run_stops_at w c recs n [] Hn Hfull
              (fun st => page_body_refused w c n st Hrefused))
    as [Hok [Hall Hreq]].
  split; [exact Hok|]. split; [|exact Hreq].
  rewrite Hall, app_nil_r.
  rewrite !flat_map_concat_map. f_equal. apply map_ext_in.
  intros p Hp. apply range_In in Hp.
  apply gather_complete. apply (Hfull p Hp).
Qed.

Lemma non_200_returns_earlier_pages_witness :
  all_articles (snd (run (Mock.upstream Mock.small Mock.refused_third)
                         Mock.small))
    = [Mock.collected; Mock.collected; Mock.collected] /\
  length (requested (snd (run (Mock.upstream Mock.small Mock.refused_third)
                              Mock.small))) = 3%nat.
Proof.
  destruct (non_200_returns_earlier_pages
              (Mock.upstream Mock.small Mock.refused_third) Mock.small
              Mock.refused_recs 3) as [_ [Hall Hreq]].
  - vm_compute. split; discriminate.
  - intros p Hp. assert (Hcase : p = 1%Z \/ p = 2%Z) by lia.
    destruct Hcase as [-> | ->].
    + split; [|split; [reflexivity | vm_compute; discriminate]].
      exists (Response.mk 200 (Mock.token 1)),
             (Mock.body [Mock.article; Mock.liveblog]),
             (JDict [ (lit "status", JStr (lit "ok"));
                      (lit "results", JList [Mock.article; Mock.liveblog]) ]).
      repeat split; vm_compute; reflexivity.
    + split; [|split; [reflexivity | vm_compute; discriminate]].
      exists (Response.mk 200 (Mock.token 2)),
             (Mock.body [Mock.article; Mock.article]),
             (JDict [ (lit "status", JStr (lit "ok"));
                      (lit "results", JList [Mock.article; Mock.article]) ]).
      repeat split; vm_compute; reflexivity.
  - exists (Response.mk 503 (Mock.token 3)).
    split; [vm_compute; reflexivity | cbn; discriminate].
  - split.
    + rewrite Hall. vm_compute. reflexivity.
    + rewrite Hreq. reflexivity.
Defined.

(** C3.  When a page is answered 200 with a result list shorter than
    the page size, counted before the kind filter:
    - whenever the loop is about to fetch that page, in any state and
      with any pages still to come, it sends that single request,
      appends what the page's records yield and ends normally, so that
      no later page is asked for;
    - when no record of the page faults, what is appended is the article
      of every record of the page;
    - in a run whose earlier pages were full and processed without a
      fault, the requests are exactly those for pages 1 to this one and
      the accumulator is the earlier pages' articles followed by this
      page's. *)
Theorem short_page_stops (w : world) (c : settings) (page : Z)
    (recs : list json) :
  page_results w c page recs ->
  (Z.of_nat (length recs) < page_limit c)%Z ->
  (forall later st,
     for_break (page :: later) (page_body w c) st =
       (ok tt, after_page w c page (page_articles recs) st) /\
     requested (snd (for_break (page :: later) (page_body w c) st)) =
       requested st ++ [page_url w c page]) /\
  (faultless recs -> page_articles recs = flat_map contribution recs) /\
  (forall before : Z -> list json,
     (1 <= page <= max_limit c)%Z ->
     (forall p, (1 <= p < page)%Z ->
        page_results w c p (before p) /\ faultless (before p) /\
        (page_limit c <= Z.of_nat (length (before p)))%Z) ->
     fst (run w c) = ok tt /\
     all_articles (snd (run w c)) =
       flat_map (fun p => page_articles (before p)) (range 1 page)
         ++ page_articles recs /\
     requested (snd (run w c)) = map (page_url w c) (range 1 (page + 1))).
Proof.
  intros Hres Hshort.
  assert (Hbody : forall st, page_body w c page st =
                    (ok Break, after_page w c page (page_articles recs) st)).
  { intros st. rewrite (page_body_results w c page recs st Hres).
    rewrite (page_flow_short c recs Hshort). reflexivity. }
  split; [|split].
  - intros later st.
    rewrite (for_break_break w c page later st _ (Hbody st)).
    split; reflexivity.
  - apply gather_complete.
  - intros before Hpage Hfull.
    apply (run_stops_at w c before page _ Hpage Hfull Hbody).
Qed.

Lemma short_page_stops_witness :
  all_articles (snd (run (Mock.upstream Mock.small Mock.short_second)
                         Mock.small))
    = [Mock.collected; Mock.collected] /\
  requested (snd (run (Mock.upstream Mock.small Mock.short_second)
                      Mock.small))
    = [Mock.url Mock.small 1; Mock.url Mock.small 2].
Proof.
  destruct (short_page_stops
              (Mock.upstream Mock.small Mock.short_second) Mock.small
              2 [Mock.liveblog]) as [_ [_ Hrun]].
  - exists (Response.mk 200 (Mock.token 2)),
           (Mock.body [Mock.liveblog]),
           (JDict [ (lit "status", JStr (lit "ok"));
                    (lit "results", JList [Mock.liveblog]) ]).
    repeat split; vm_compute; reflexivity.
  - vm_compute. reflexivity.
  - destruct (Hrun (fun _ => [Mock.article; Mock.article]))
      as [_ [Hall Hreq]].
    + vm_compute. split; discriminate.
    + intros p Hp. assert (p = 1%Z) as -> by lia.
      split; [|split; [reflexivity | vm_compute; discriminate]].
      exists (Response.mk 200 (Mock.token 1)),
             (Mock.body [Mock.article; Mock.article]),
             (JDict [ (lit "status", JStr (lit "ok"));
                      (lit "results", JList [Mock.article; Mock.article]) ]).
      repeat split; vm_compute; reflexivity.
    + split.
      * rewrite Hall. vm_compute. reflexivity.
      * rewrite Hreq. vm_compute. reflexivity.
Defined.

(** C9.  When a record faults in the middle of a page (its processing
    raises, as for an [article] whose body list is empty), the loop
    ends normally, nothing escapes, and the articles appended from the
    records that precede it on that same page stay in the accumulator;
    the records after it are not processed and no later page is asked
    for.  This holds whenever the loop is about to fetch that page, and
    so for the run whose earlier pages were full and fault-free. *)
Theorem mid_page_fault_keeps_earlier (w : world) (c : settings) (page : Z)
    (good rest : list json) (bad : json) (exc : pyexc) :
  page_results w c page (good ++ bad :: rest) ->
  faultless good ->
  entry_article bad = raise exc ->
  (forall later st,
     for_break (page :: later) (page_body w c) st =
       (ok tt,
        {| all_articles := all_articles st ++ flat_map contribution good;
           requested := requested st ++ [page_url w c page];
           stdout := stdout st ++ [fetching_line page] |})) /\
  (forall before : Z -> list json,
     (1 <= page <= max_limit c)%Z ->
     (forall p, (1 <= p < page)%Z ->
        page_results w c p (before p) /\ faultless (before p) /\
        (page_limit c <= Z.of_nat (length (before p)))%Z) ->
     fst (run w c) = ok tt /\
     all_articles (snd (run w c)) =
       flat_map (fun p => page_articles (before p)) (range 1 page)
         ++ flat_map contribution good /\
     requested (snd (run w c)) = map (page_url w c) (range 1 (page + 1))).
Proof.
  intros Hres Hgood Hbad.
  assert (Hbody : forall st, page_body w c page st =
            (ok Break, after_page w c page (flat_map contribution good) st)).
  { intros st. rewrite (page_body_results w c page _ st Hres).
    unfold page_flow, page_articles.
    rewrite (gather_fault good rest bad exc Hgood Hbad).
    cbn [fst snd]. rewrite (gather_complete good Hgood). reflexivity. }
  split.
  - intros later st. apply for_break_break. apply Hbody.
  - intros before Hpage Hfull.
    apply (run_stops_at w c before page _ Hpage Hfull Hbody).
Qed.

Lemma mid_page_fault_keeps_earlier_witness :
  entry_article Mock.hollow_article = raise IndexError /\
  run (Mock.upstream Mock.small Mock.fault_first) Mock.small =
    (ok tt,
     {| all_articles := [Mock.collected];
        requested := [Mock.url Mock.small 1];
        stdout := [fetching_line 1; lit "Done!"] |}) /\
  all_articles (snd (run (Mock.upstream Mock.small Mock.fault_first)
                         Mock.small)) = [Mock.collected].
Proof.
  split; [vm_compute; reflexivity|]. split; [vm_compute; reflexivity|].
  destruct (mid_page_fault_keeps_earlier
              (Mock.upstream Mock.small Mock.fault_first) Mock.small
              1 [Mock.article] [Mock.article] Mock.hollow_article IndexError)
    as [_ Hrun].
  - exists (Response.mk 200 (Mock.token 1)),
           (Mock.body [Mock.article; Mock.hollow_article; Mock.article]),
           (JDict [ (lit "status", JStr (lit "ok"));
                    (lit "results",
                     JList [Mock.article; Mock.hollow_article;
                            Mock.article]) ]).
    repeat split; vm_compute; reflexivity.
  - vm_compute. reflexivity.
  - vm_compute. reflexivity.
  - destruct (Hrun (fun _ => [])) as [_ [Hall _]].
    + vm_compute. split; discriminate.
    + intros p Hp. lia.
    + rewrite Hall. vm_compute. reflexivity.
Defined.

(** ** The claims about the collected articles *)

(** C4.  In every run, the title and the text of every article in the
    final accumulator hold none of the seven mis-decoded sequences of
    the repair table. *)
Theorem collected_text_repaired (w : world) (c : settings)
    (a : CollectedArticle) :
  In a (all_articles (snd (run w c))) ->
  repaired (title a) /\ repaired (text a).
Proof.
  intros Hin.
  destruct (run_provenance w c a Hin) as [page [e [_ [_ He]]]].
  destruct (entry_article_some e a He)
    as [_ [[s [_ Ht]] [_ [_ [block [s' [_ [_ Hx]]]]]]]].
  rewrite Ht, Hx. split; apply clean_text_repaired.
Qed.

Lemma collected_text_repaired_witness :
  In Mock.collected
     (all_articles (snd (run (Mock.upstream Mock.small Mock.refused_third)
                             Mock.small))) /\
  repaired (title Mock.collected) /\ repaired (text Mock.collected) /\
  repairedb Mock.raw_title = false.
Proof.
  assert (Hin : In Mock.collected
     (all_articles (snd (run (Mock.upstream Mock.small Mock.refused_third)
                             Mock.small)))).
  { vm_compute. left. reflexivity. }
  split; [exact Hin|].
  destruct (collected_text_repaired _ _ _ Hin) as [Ht Hx].
  split; [exact Ht|]. split; [exact Hx|]. vm_compute. reflexivity.
Defined.

(** C6.  Every article of the final accumulator was made from a fetched
    record, and for any record it was made from, its authors are
    exactly the cleaned names of that record's tags of kind
    [contributor], in the order of the tags: a tag of another kind
    contributes nothing. *)
Theorem authors_are_contributor_names (w : world) (c : settings)
    (a : CollectedArticle) :
  In a (all_articles (snd (run w c))) ->
  (exists page entry,
     fetched_entry w c page entry /\ entry_article entry = ok (Some a)) /\
  (forall entry,
     entry_article entry = ok (Some a) ->
     exists tags tag_list,
       getitem entry (lit "tags") = ok tags /\
       py_iter tags = ok tag_list /\
       authors a =
         map (fun t => clean_text (tag_name t))
             (filter (fun t => has_kind t (lit "contributor")) tag_list)).
Proof.
  intros Hin. split.
  - destruct (run_provenance w c a Hin) as [page [e [_ [Hf He]]]].
    exists page, e. auto.
  - intros entry He.
    destruct (entry_article_some entry a He)
      as [_ [_ [_ [[tags [tl [Htags [Hiter Hau]]]] _]]]].
    exists tags, tl. split; [exact Htags|]. split; [exact Hiter|].
    destruct (collect_authors_ok tl [] (authors a) Hau) as [Heq _].
    exact Heq.
Qed.

Lemma authors_are_contributor_names_witness :
  authors Mock.collected = [lit "Renee A"; lit "B C"] /\
  exists tags tag_list,
    getitem Mock.article (lit "tags") = ok tags /\
    py_iter tags = ok tag_list /\
    length tag_list = 3%nat /\
    authors Mock.collected =
      map (fun t => clean_text (tag_name t))
          (filter (fun t => has_kind t (lit "contributor")) tag_list).
Proof.
  split; [reflexivity|].
  assert (Hin : In Mock.collected
     (all_articles (snd (run (Mock.upstream Mock.small Mock.refused_third)
                             Mock.small)))).
  { vm_compute. left. reflexivity. }
  destruct (authors_are_contributor_names _ _ _ Hin) as [_ H].
  destruct (H Mock.article) as [tags [tl [Htags [Hiter Hau]]]].
  - vm_compute. reflexivity.
  - exists tags, tl. split; [exact Htags|]. split; [exact Hiter|].
    split; [|exact Hau].
    vm_compute in Htags. inversion Htags; subst tags.
    vm_compute in Hiter. inversion Hiter; subst tl. reflexivity.
Defined.

(** C7.  A record whose kind is anything but exactly [article] (a
    [liveblog], say) is passed over before any other field is read: the
    loop body leaves the state as it was and raises nothing, whatever
    else the record holds or lacks.  Every article of the final
    accumulator was made from another fetched record, one whose kind is
    exactly [article]. *)
Theorem other_kinds_never_collected (w : world) (c : settings)
    (entry kind : json) :
  getitem entry (lit "type") = ok kind ->
  kind <> JStr (lit "article") ->
  entry_article entry = ok None /\
  (forall st, entry_body entry st = (ok tt, st)) /\
  (forall a, In a (all_articles (snd (run w c))) ->
     exists page e,
       fetched_entry w c page e /\ e <> entry /\
       getitem e (lit "type") = ok (JStr (lit "article")) /\
       entry_article e = ok (Some a)).
Proof.
  intros Hk Hne.
  assert (Hskip : entry_article entry = ok None)
    by (apply (entry_article_other_kind entry kind Hk Hne)).
  split; [exact Hskip|]. split.
  - intros st. unfold entry_body, bind, lift. rewrite Hskip. reflexivity.
  - intros a Hin.
    destruct (run_provenance w c a Hin) as [page [e [_ [Hf He]]]].
    exists page, e. split; [exact Hf|].
    destruct (entry_article_some e a He) as [Hty _].
    split; [|split; [exact Hty | exact He]].
    intros ->. rewrite Hskip in He. discriminate.
Qed.

Lemma other_kinds_never_collected_witness :
  entry_article Mock.liveblog = ok None /\
  all_articles (snd (run (Mock.upstream Mock.small Mock.refused_third)
                         Mock.small))
    = [Mock.collected; Mock.collected; Mock.collected].
Proof.
  destruct (other_kinds_never_collected
              (Mock.upstream Mock.small Mock.refused_third) Mock.small
              Mock.liveblog (JStr (lit "liveblog"))) as [H _].
  - vm_compute. reflexivity.
  - vm_compute. discriminate.
  - split; [exact H | vm_compute; reflexivity].
Defined.

(** C10.  Every article of the final accumulator was made from a
    fetched record, and for any record it was made from, its date is
    that record's [webPublicationDate] value as received, while its
    title and text are the cleaned [webTitle] and the cleaned
    [bodyTextSummary] of the first body block and its authors are the
    cleaned names of the record's [contributor] tags, in tag order:
    [clean_text] is applied to the title, the text and the author names
    and never touches the date. *)
Theorem date_kept_as_received (w : world) (c : settings)
    (a : CollectedArticle) :
  In a (all_articles (snd (run w c))) ->
  (exists page entry,
     fetched_entry w c page entry /\ entry_article entry = ok (Some a)) /\
  (forall entry,
     entry_article entry = ok (Some a) ->
     getitem entry (lit "webPublicationDate") = ok (date a) /\
     (exists s, getitem entry (lit "webTitle") = ok (JStr s) /\
                title a = clean_text s) /\
     (exists block s,
        first_block entry = ok block /\
        getitem block (lit "bodyTextSummary") = ok (JStr s) /\
        text a = clean_text s) /\
     (exists tags tag_list,
        getitem entry (lit "tags") = ok tags /\
        py_iter tags = ok tag_list /\
        authors a =
          map (fun t => clean_text (tag_name t))
              (filter (fun t => has_kind t (lit "contributor")) tag_list))).
Proof.
  intros Hin. split.
  - destruct (run_provenance w c a Hin) as [page [e [_ [Hf He]]]].
    exists page, e. auto.
  - intros entry He.
    destruct (entry_article_some entry a He)
      as [_ [Ht [Hd [[tags [tl [Htags [Hiter Hau]]]] Hx]]]].
    split; [exact Hd|]. split; [exact Ht|]. split; [exact Hx|].
    exists tags, tl. split; [exact Htags|]. split; [exact Hiter|].
    destruct (collect_authors_ok tl [] (authors a) Hau) as [Heq _].
    exact Heq.
Qed.

Lemma date_kept_as_received_witness :
  date Mock.collected = JStr Mock.raw_date /\
  contains Mock.raw_date mis_endash = true /\
  getitem Mock.article (lit "webPublicationDate") = ok (date Mock.collected) /\
  exists tags tag_list,
    getitem Mock.article (lit "tags") = ok tags /\
    py_iter tags = ok tag_list /\
    authors Mock.collected =
      map (fun t => clean_text (tag_name t))
          (filter (fun t => has_kind t (lit "contributor")) tag_list).
Proof.
  split; [reflexivity|]. split; [vm_compute; reflexivity|].
  assert (Hin : In Mock.collected
     (all_articles (snd (run (Mock.upstream Mock.small Mock.refused_third)
                             Mock.small)))).
  { vm_compute. left. reflexivity. }
  destruct (date_kept_as_received _ _ _ Hin) as [_ H].
  destruct (H Mock.article) as [Hd [_ [_ Hau]]].
  - vm_compute. reflexivity.
  - split; [exact Hd | exact Hau].
Defined.

(** ** request_api *)

Section RequestApi.

Lemma add_queries_concat (params : list (str * pyval)) :
  forall queries,
    add_queries params queries =
    concat (map query_pair (rev params)) ++ queries.
Proof.
  induction params as [|[key value] rest IH]; intros queries; [reflexivity|].
  cbn [add_queries rev]. rewrite IH, map_app, concat_app.
  cbn [map concat]. unfold query_pair, query_name. cbn [fst snd].
  rewrite app_nil_r, <- !app_assoc. reflexivity.
Qed.

(** Replacing a one-character pattern by one character is a map. *)
Lemma replace_char (a b : N) (s : str) :
  replace s [a] [b] = map (fun ch => if (ch =? a)%N then b else ch) s.
Proof.
  induction s as [|ch t IH]; [reflexivity|].
  cbn [map]. destruct (N.eqb_spec ch a) as [-> | Hne].
  - change (a :: t) with ([a] ++ t).
    rewrite (replace_match_app t [a] [b]) by discriminate.
    rewrite IH. reflexivity.
  - rewrite replace_skip.
    + rewrite IH. reflexivity.
    + cbn [startswith]. apply andb_false_iff. left.
      apply N.eqb_neq. congruence.
Qed.

Lemma query_name_no_underscore (key : str) : ~ In underscore (query_name key).
Proof.
  unfold query_name. change (lit "_") with [underscore].
  change (lit "-") with [45%N]. rewrite replace_char.
  rewrite in_map_iff. intros [ch [H _]].
  destruct (N.eqb_spec ch underscore); [discriminate H | congruence].
Qed.

End RequestApi.

(** C8.  For every call of [request_api] and every keyword parameter
    passed to it: the URL handed to [requests.get] is the site, the
    endpoint, a question mark and a query string made of one
    [name=value&] group per parameter (last parameter first) followed by
    [api-key=] and the key; the group of the parameter is in it, its
    name being the parameter's name with every underscore turned into a
    hyphen and its value [str(value)]; no name written holds an
    underscore. *)
Theorem request_api_query (w : world) (endpoint apiKey : str)
    (params : list (str * pyval)) (key : str) (value : pyval) (st : state) :
  In (key, value) params ->
  request_api w endpoint apiKey params st =
    (requests_get w (request_url endpoint apiKey params),
     {| all_articles := all_articles st;
        requested := requested st ++ [request_url endpoint apiKey params];
        stdout := stdout st |}) /\
  request_url endpoint apiKey params =
    API_SITE ++ endpoint ++ lit "?" ++ request_queries apiKey params /\
  request_queries apiKey params =
    concat (map query_pair (rev params)) ++ lit "api-key=" ++ apiKey /\
  occurs (query_name key ++ lit "=" ++ py_str value ++ lit "&")
         (request_queries apiKey params) /\
  query_name key =
    map (fun ch => if (ch =? underscore)%N then 45%N else ch) key /\
  (forall p, In p params -> ~ In underscore (query_name (fst p))).
Proof.
  intros Hin.
  assert (Hq : request_queries apiKey params =
               concat (map query_pair (rev params)) ++ lit "api-key=" ++ apiKey)
    by apply add_queries_concat.
  split; [reflexivity|]. split; [reflexivity|]. split; [exact Hq|].
  split; [|split].
  - rewrite Hq.
    assert (Hrev : In (key, value) (rev params))
      by (apply in_rev in Hin; exact Hin).
    apply in_split in Hrev. destruct Hrev as [l1 [l2 Hs]]. rewrite Hs.
    rewrite map_app, concat_app. cbn [map concat].
    exists (concat (map query_pair l1)),
           (concat (map query_pair l2) ++ lit "api-key=" ++ apiKey).
    unfold query_pair at 2. cbn [fst snd]. rewrite <- !app_assoc.
    reflexivity.
  - apply replace_char.
  - intros p _. apply query_name_no_underscore.
Qed.

Lemma request_api_query_witness :
  In (lit "page_size", PInt 50) (page_params notebook_settings 1) /\
  occurs (lit "page-size=50&")
         (request_queries Mock.key (page_params notebook_settings 1)) /\
  request_url (lit "search") Mock.key (page_params notebook_settings 1) =
    lit "https://content.guardianapis.com/search?show-blocks=body&show-tags=contributor&to-date=2021-03-12&from-date=2021-03-11&page-size=50&page=1&api-key=test-key".
Proof.
  assert (Hin : In (lit "page_size", PInt 50)
                   (page_params notebook_settings 1))
    by (right; left; reflexivity).
  split; [exact Hin|].
  destruct (request_api_query
              (Mock.upstream notebook_settings Mock.scenario)
              (lit "search") Mock.key (page_params notebook_settings 1)
              (lit "page_size") (PInt 50) initial_state Hin)
    as [_ [_ [_ [Hocc _]]]].
  split; [exact Hocc | vm_compute; reflexivity].
Defined.

(** ** Checks on concrete inputs *)

Example replace_all_occurrences :
  replace (lit "page_size_x") (lit "_") (lit "-") = lit "page-size-x".
Proof. reflexivity. Qed.

Example replace_left_to_right :
  replace (lit "aaa") (lit "aa") (lit "b") = lit "ba".
Proof. reflexivity. Qed.

Example replace_empty_pattern :
  replace (lit "ab") [] (lit "-") = lit "-a-b-".
Proof. reflexivity. Qed.

Example str_of_int_examples :
  str_of_int 50 = lit "50" /\ str_of_int 0 = lit "0"
  /\ str_of_int (-7) = lit "-7".
Proof. repeat split. Qed.

Example clean_text_right_quote :
  clean_text (lit "It" ++ mis_rsquo ++ lit "s") = lit "It's".
Proof. reflexivity. Qed.

Example clean_text_sample :
  clean_text Mock.raw_text = dquote ++ lit "Zurich" ++ dquote ++ lit " * 1-2".
Proof. vm_compute. reflexivity. Qed.

Example entry_article_sample :
  entry_article Mock.article = ok (Some Mock.collected).
Proof. vm_compute. reflexivity. Qed.

Example entry_article_hollow :
  entry_article Mock.hollow_article = raise IndexError.
Proof. vm_compute. reflexivity. Qed.

Example entry_article_missing_field :
  entry_article (JDict [ (lit "type", JStr (lit "article")) ]) = raise KeyError.
Proof. vm_compute. reflexivity. Qed.

Example run_short_second :
  run (Mock.upstream Mock.small Mock.short_second) Mock.small =
    (ok tt,
     {| all_articles := [Mock.collected; Mock.collected];
        requested := [Mock.url Mock.small 1; Mock.url Mock.small 2];
        stdout := [fetching_line 1; fetching_line 2; lit "Done!"] |}).
Proof. vm_compute. reflexivity. Qed.

(* ================================================================== *)
(** * Further properties *)

(** ** More on replace and clean_text *)

Section ReplaceMore.

(** Nothing to replace: the string comes back as it is. *)
Lemma replace_absent (s old new : str) :
  ~ occurs old s -> replace s old new = s.
Proof.
  destruct old as [|o old'].
  - intros H. exfalso. apply H. exists [], s. reflexivity.
  - pattern s. apply (scan_ind (o :: old')); [discriminate | | |].
    + intros _. reflexivity.
    + intros r _ H. exfalso. apply H. exists [], r. reflexivity.
    + intros c t E IH H. rewrite replace_skip by exact E.
      rewrite IH; [reflexivity|].
      intros Ht. apply H. apply occurs_cons. right. exact Ht.
Qed.

Lemma replace_length_le (s old new : str) :
  old <> [] -> (length new <= length old)%nat ->
  (length (replace s old new) <= length s)%nat.
Proof.
  intros Hold Hlen. pattern s. apply (scan_ind old); [exact Hold | | |].
  - rewrite replace_nil by exact Hold. reflexivity.
  - intros r IH. rewrite replace_match_app by exact Hold.
    rewrite !length_app. lia.
  - intros c t E IH. rewrite replace_skip by exact E. cbn [length]. lia.
Qed.

(** A cut before [b] that no occurrence of [old] can straddle splits
    the substitution. *)
Lemma replace_app_split (old new a b : str) :
  old <> [] -> boundary_ok old b = true ->
  replace (a ++ b) old new = replace a old new ++ replace b old new.
Proof.
  intros Hold Hb. pattern a. apply (scan_ind old); [exact Hold | | |].
  - rewrite replace_nil by exact Hold. reflexivity.
  - intros r IH. rewrite <- app_assoc.
    rewrite !replace_match_app by exact Hold. rewrite IH, app_assoc.
    reflexivity.
  - intros c t E IH.
    assert (E' : startswith ((c :: t) ++ b) old = false).
    { destruct (startswith ((c :: t) ++ b) old) eqn:K; [|reflexivity].
      exfalso. apply startswith_app in K. destruct K as [y Hy].
      destruct (prefix_comparable _ _ _ _ Hy) as [K | K]; [congruence|].
      apply startswith_app in K. destruct K as [v Hv].
      rewrite Hv in Hy. rewrite <- app_assoc in Hy.
      apply app_inv_head in Hy.
      destruct v as [|x v].
      - rewrite app_nil_r in Hv. subst old.
        assert (startswith (c :: t) (c :: t) = true)
          by (apply startswith_app; exists []; rewrite app_nil_r; reflexivity).
        congruence.
      - subst b. cbn [boundary_ok app] in Hb. apply negb_true_iff in Hb.
        assert (Hex : existsb (N.eqb x) (tl old) = true).
        { apply existsb_exists. exists x. split; [|apply N.eqb_refl].
          rewrite Hv. cbn [app tl]. apply in_or_app. right. left.
          reflexivity. }
        congruence. }
    cbn [app] in E' |- *.
    rewrite (replace_skip _ _ _ new E'), (replace_skip _ _ _ new E), IH.
    reflexivity.
Qed.

(** A block [w] that [old] can neither start in nor run into. *)
Lemma replace_around (old new a w b : str) :
  old <> [] -> w <> [] -> boundary_ok old w = true ->
  no_overlap w old = true ->
  replace (a ++ w ++ b) old new = replace a old new ++ w ++ replace b old new.
Proof.
  intros Hold Hw Hb Hno.
  rewrite replace_app_split; [|exact Hold|].
  - rewrite replace_app_no_overlap by assumption. reflexivity.
  - destruct w; [congruence | exact Hb].
Qed.

(** An occurrence of [old], when [old] does not overlap itself. *)
Lemma replace_hit (old new a b : str) :
  old <> [] -> boundary_ok old old = true ->
  replace (a ++ old ++ b) old new = replace a old new ++ new ++ replace b old new.
Proof.
  intros Hold Hb.
  rewrite replace_app_split; [|exact Hold|].
  - rewrite replace_match_app by exact Hold. reflexivity.
  - destruct old; [congruence | exact Hb].
Qed.

Lemma clean_text_of_repaired (s : str) : repaired s -> clean_text s = s.
Proof.
  intros H. unfold clean_text.
  assert (H1 : ~ occurs mis_rsquo s) by (apply H; vm_compute; tauto).
  assert (H2 : ~ occurs mis_ldquo s) by (apply H; vm_compute; tauto).
  assert (H3 : ~ occurs mis_rdquo s) by (apply H; vm_compute; tauto).
  assert (H4 : ~ occurs mis_bullet s) by (apply H; vm_compute; tauto).
  assert (H5 : ~ occurs mis_eacute s) by (apply H; vm_compute; tauto).
  assert (H6 : ~ occurs mis_uuml s) by (apply H; vm_compute; tauto).
  assert (H7 : ~ occurs mis_endash s) by (apply H; vm_compute; tauto).
  rewrite (replace_absent s _ _ H1), (replace_absent s _ _ H2),
    (replace_absent s _ _ H3), (replace_absent s _ _ H4),
    (replace_absent s _ _ H5), (replace_absent s _ _ H6),
    (replace_absent s _ _ H7).
  reflexivity.
Qed.

End ReplaceMore.

(** X1.  [clean_text] returns its argument unchanged exactly when the
    argument holds none of the seven mis-decoded sequences: anything
    outside the table passes through as it is. *)
Theorem clean_text_unchanged_iff (s : str) :
  clean_text s = s <-> repaired s.
Proof.
  split.
  - intros H. rewrite <- H. apply clean_text_repaired.
  - apply clean_text_of_repaired.
Qed.

(** X2.  Cleaning twice is cleaning once. *)
Theorem clean_text_idempotent (s : str) :
  clean_text (clean_text s) = clean_text s.
Proof. apply clean_text_of_repaired. apply clean_text_repaired. Qed.

(** X3.  [clean_text] never makes a string longer. *)
Theorem clean_text_length (s : str) :
  (length (clean_text s) <= length s)%nat.
Proof.
  unfold clean_text.
  repeat (eapply Nat.le_trans;
          [apply replace_length_le; [discriminate | cbn; lia]|]).
  apply Nat.le_refl.
Qed.

(** X4.  Wherever one of the seven sequences stands in the input, its
    character stands in the output, and what is on either side is
    cleaned on its own. *)
Theorem clean_text_replaces_in_place (p : str * str) (a b : str) :
  In p repair_table ->
  clean_text (a ++ fst p ++ b) = clean_text a ++ snd p ++ clean_text b.
Proof.
  unfold repair_table. cbn [In]. intros Hp.
  repeat (destruct Hp as [<- | Hp]; [|try contradiction]);
    cbn [fst snd]; unfold clean_text;
    repeat first
      [ rewrite replace_hit by (discriminate || (vm_compute; reflexivity))
      | rewrite replace_around
          by (discriminate || (vm_compute; reflexivity)) ];
    reflexivity.
Qed.

Lemma clean_text_replaces_in_place_witness :
  clean_text (lit "It" ++ mis_rsquo ++ lit "s") =
  clean_text (lit "It") ++ apostrophe ++ clean_text (lit "s").
Proof.
  apply (clean_text_replaces_in_place (mis_rsquo, apostrophe)
           (lit "It") (lit "s")).
  left. reflexivity.
Defined.

(** ** More on the page loop *)

Section LoopMore.

Variable w : world.
Variable c : settings.

Lemma uint_cps_inj (u v : Decimal.uint) : uint_cps u = uint_cps v -> u = v.
Proof.
  revert v; induction u; intros v H; destruct v; cbn in H;
    try discriminate H; try reflexivity;
    inversion H; f_equal; auto.
Qed.

Lemma uint_cps_head (u : Decimal.uint) (t : str) : uint_cps u <> 45%N :: t.
Proof. destruct u; cbn; discriminate. Qed.

(** [str] of an [int] tells the ints apart. *)
Lemma str_of_int_inj (a b : Z) : str_of_int a = str_of_int b -> a = b.
Proof.
  unfold str_of_int. intros H.
  rewrite <- (DecimalZ.of_to a), <- (DecimalZ.of_to b).
  destruct (Z.to_int a) as [u | u], (Z.to_int b) as [v | v].
  - apply uint_cps_inj in H. congruence.
  - exfalso. exact (uint_cps_head _ _ H).
  - exfalso. symmetry in H. exact (uint_cps_head _ _ H).
  - inversion H as [H']. apply uint_cps_inj in H'. congruence.
Qed.

Lemma page_url_inj (p q : Z) : page_url w c p = page_url w c q -> p = q.
Proof.
  unfold page_url, request_url, request_queries, page_params.
  cbn [add_queries py_str]. intros H.
  repeat apply app_inv_head in H.
  apply app_inv_tail in H. apply str_of_int_inj. exact H.
Qed.

Lemma NoDup_map_inj {A B} (f : A -> B) (l : list A) :
  (forall x y, f x = f y -> x = y) -> NoDup l -> NoDup (map f l).
Proof.
  intros Hinj. induction 1 as [|x l Hx Hl IH]; cbn [map]; constructor.
  - intros Hin. apply in_map_iff in Hin. destruct Hin as [y [Hy Hin]].
    apply Hinj in Hy. subst y. contradiction.
  - exact IH.
Qed.

Lemma range_NoDup (a b : Z) : NoDup (range a b).
Proof.
  unfold range. apply NoDup_map_inj; [|apply seq_NoDup].
  intros x y H. cbv beta in H. lia.
Qed.

Lemma range_app_inv (a b : Z) (done rest : list Z) :
  range a b = done ++ rest ->
  done = range a (a + Z.of_nat (length done)) /\
  (Z.of_nat (length done) <= Z.max 0 (b - a))%Z.
Proof.
  intros H.
  assert (Hlen : (length done <= Z.to_nat (b - a))%nat).
  { apply (f_equal (@length Z)) in H. unfold range in H.
    rewrite length_map, length_seq, length_app in H. lia. }
  split; [|lia].
  destruct (Z.le_gt_cases a b) as [Hab | Hab].
  2:{ destruct done; [|cbn [length] in Hlen; lia].
      unfold range. cbn [length]. 
      replace (Z.to_nat (a + Z.of_nat 0 - a)) with 0%nat by lia.
      reflexivity. }
  rewrite (range_split a (a + Z.of_nat (length done)) b) in H by lia.
  apply (f_equal (firstn (length done))) in H.
  rewrite !firstn_app in H.
  replace (length (range a (a + Z.of_nat (length done)))) with (length done)
    in H by (unfold range; rewrite length_map, length_seq; lia).
  rewrite Nat.sub_diag, !firstn_O, !app_nil_r in H.
  rewrite firstn_all in H.
  rewrite firstn_all2 in H
    by (unfold range; rewrite length_map, length_seq; lia).
  symmetry. exact H.
Qed.

(** The requests sent and the lines printed by the page loop are those
    of the first pages of the list, one each, in order. *)
Lemma for_break_trace (pages : list Z) :
  forall st, exists done rest,
    pages = done ++ rest /\
    requested (snd (for_break pages (page_body w c) st)) =
      requested st ++ map (page_url w c) done /\
    stdout (snd (for_break pages (page_body w c) st)) =
      stdout st ++ map fetching_line done.
Proof.
  induction pages as [|p pages IH]; intros st.
  - exists [], []. cbn. rewrite !app_nil_r. auto.
  - destruct (page_body_any w c p st) as [fl [arts [Hbody _]]].
    destruct fl.
    + rewrite (for_break_next w c _ _ _ _ Hbody).
      destruct (IH (after_page w c p arts st)) as [done [rest [Hp [Hr Ho]]]].
      exists (p :: done), rest. rewrite Hr, Ho, Hp.
      cbn [after_page requested stdout map app]. rewrite <- !app_assoc.
      auto.
    + rewrite (for_break_break w c _ _ _ _ Hbody).
      exists [p], pages. cbn [snd after_page requested stdout map app]. auto.
Qed.

(** A page answered 200 whose results can be iterated. *)
Lemma page_body_answer (page : Z) (results : json) (entries : list json)
    (n : Z) (st : state) :
  page_answer w c page results ->
  py_iter results = ok entries -> py_len results = ok n ->
  page_body w c page st =
  (ok (match snd (gather entries) with
       | inl _ => Break
       | inr _ => if (n <? page_limit c)%Z then Break else Next
       end),
   after_page w c page (page_articles entries) st).
Proof.
  intros [resp [parsed [r [Hget [Hst [Hload [Hresp Hres]]]]]]] Hiter Hlen.
  unfold page_body, page_try, request_api, get, print, try_except, bind, lift.
  fold (page_url w c page). cbn [all_articles requested stdout].
  rewrite Hget. unfold ok. rewrite Hst. cbn [Z.eqb Pos.eqb negb].
  unfold ok in Hload, Hresp, Hres, Hiter, Hlen.
  rewrite Hload, Hresp, Hres, Hiter. rewrite for_each_entry_body.
  cbn [all_articles requested stdout]. rewrite Hlen.
  unfold after_page, ret, ok. fold (fetching_line page).
  destruct (snd (gather entries)) as [x | []]; [reflexivity|].
  destruct (n <? page_limit c)%Z; reflexivity.
Qed.

(** A page that raises before any entry is read. *)
Lemma page_body_faulted (page : Z) (st : state) :
  page_faulted w c page ->
  page_body w c page st = (ok Break, after_page w c page [] st).
Proof.
  unfold page_body, page_try, request_api, get, print, try_except, bind, lift.
  fold (page_url w c page). cbn [all_articles requested stdout].
  unfold after_page, ret, ok, raise, rbind. fold (fetching_line page).
  rewrite app_nil_r.
  intros [[exc Hget] | [resp [exc [Hget [Hst H]]]]].
  - unfold raise in Hget. rewrite Hget. reflexivity.
  - unfold ok, raise, rbind in Hget, H. rewrite Hget, Hst.
    cbn [Z.eqb Pos.eqb negb].
    destruct (json_loads w (Response.text resp)) as [x | parsed];
      [reflexivity|].
    destruct (getitem parsed (lit "response")) as [x | r]; [reflexivity|].
    destruct (getitem r (lit "results")) as [x | results]; [reflexivity|].
    rewrite H. reflexivity.
Qed.

End LoopMore.

(** X5.  Whatever the upstream answers, a run asks for pages 1, 2, ...
    up to some page [k] no greater than the ceiling, each exactly once
    and in this order, prints one progress line per request and then the
    completion line; no URL is requested twice. *)
Theorem run_requests_consecutive (w : world) (c : settings) :
  exists k : Z,
    (0 <= k <= Z.max 0 (max_limit c))%Z /\
    requested (snd (run w c)) = map (page_url w c) (range 1 (1 + k)) /\
    stdout (snd (run w c)) =
      map fetching_line (range 1 (1 + k)) ++ [lit "Done!"] /\
    NoDup (requested (snd (run w c))).
Proof.
  destruct (for_break_any w c (range 1 (max_limit c + 1)) initial_state)
    as [st' [Hrun _]].
  destruct (for_break_trace w c (range 1 (max_limit c + 1)) initial_state)
    as [done [rest [Hsplit [Hreq Hout]]]].
  rewrite Hrun in Hreq, Hout. cbn [snd initial_state requested stdout app]
    in Hreq, Hout.
  destruct (range_app_inv _ _ _ _ Hsplit) as [Hdone Hk].
  rewrite (run_eq w c st' Hrun). cbn [snd requested stdout].
  exists (Z.of_nat (length done)). rewrite <- Hdone.
  split; [lia|]. split; [exact Hreq|]. split; [rewrite Hout; reflexivity|].
  rewrite Hreq. apply NoDup_map_inj.
  - apply page_url_inj.
  - rewrite Hdone. apply range_NoDup.
Qed.

(** X6.  When every page up to the ceiling is answered 200 with a full
    result list processed without a fault, the run stops at the ceiling
    and not before: it asks for every page from 1 to [max_limit] and
    collects the articles of all of them, in order. *)
Theorem full_pages_reach_ceiling (w : world) (c : settings)
    (recs : Z -> list json) :
  (forall p, (1 <= p <= max_limit c)%Z ->
     page_results w c p (recs p) /\ faultless (recs p) /\
     (page_limit c <= Z.of_nat (length (recs p)))%Z) ->
  fst (run w c) = ok tt /\
  requested (snd (run w c)) =
    map (page_url w c) (range 1 (max_limit c + 1)) /\
  all_articles (snd (run w c)) =
    flat_map (fun p => flat_map contribution (recs p))
             (range 1 (max_limit c + 1)).
Proof.
  intros Hfull.
  assert (Hrun :
    for_break (range 1 (max_limit c + 1)) (page_body w c) initial_state =
    (ok tt, after_pages w c recs (range 1 (max_limit c + 1)) initial_state)).
  { rewrite <- (app_nil_r (range 1 (max_limit c + 1))) at 1.
    rewrite (for_break_full w c recs); [reflexivity|].
    intros p Hp. apply range_In in Hp.
    destruct (Hfull p (ltac:(lia))) as [Hres [Hg Hlen]].
    split; [exact Hres | apply page_flow_next; assumption]. }
  rewrite (run_eq w c _ Hrun). cbn [fst snd all_articles requested].
  rewrite after_pages_articles, after_pages_requested.
  cbn [initial_state all_articles requested app].
  split; [reflexivity|]. split; [reflexivity|].
  rewrite !flat_map_concat_map. f_equal. apply map_ext_in.
  intros p Hp. apply range_In in Hp.
  apply gather_complete. apply (Hfull p). lia.
Qed.

Lemma full_pages_reach_ceiling_witness :
  requested (snd (run (Mock.upstream Script.tiny Script.always_full)
                      Script.tiny))
    = [Mock.url Script.tiny 1; Mock.url Script.tiny 2] /\
  all_articles (snd (run (Mock.upstream Script.tiny Script.always_full)
                         Script.tiny)) = [Mock.collected].
Proof.
  destruct (full_pages_reach_ceiling
              (Mock.upstream Script.tiny Script.always_full) Script.tiny
              Script.always_full_recs) as [_ [Hreq Hall]].
  - intros p Hp. assert (Hcase : p = 1%Z \/ p = 2%Z)
      by (cbn [Script.tiny max_limit] in Hp; lia).
    destruct Hcase as [-> | ->].
    + split; [|split; [reflexivity | vm_compute; discriminate]].
      exists (Response.mk 200 (Mock.token 1)), (Mock.body [Mock.article]),
             (JDict [ (lit "status", JStr (lit "ok"));
                      (lit "results", JList [Mock.article]) ]).
      repeat split; vm_compute; reflexivity.
    + split; [|split; [reflexivity | vm_compute; discriminate]].
      exists (Response.mk 200 (Mock.token 2)), (Mock.body [Mock.liveblog]),
             (JDict [ (lit "status", JStr (lit "ok"));
                      (lit "results", JList [Mock.liveblog]) ]).
      repeat split; vm_compute; reflexivity.
  - split.
    + rewrite Hreq. vm_compute. reflexivity.
    + rewrite Hall. vm_compute. reflexivity.
Defined.

(** X7.  With a ceiling of zero or less the loop body never runs: no
    request is sent, nothing is collected and only the completion line
    is printed. *)
Theorem no_page_without_ceiling (w : world) (c : settings) :
  (max_limit c <= 0)%Z ->
  run w c = (ok tt, {| all_articles := []; requested := [];
                       stdout := [lit "Done!"] |}).
Proof.
  intros H. unfold run, collect, range.
  replace (Z.to_nat (max_limit c + 1 - 1)) with 0%nat by lia.
  reflexivity.
Qed.

Lemma no_page_without_ceiling_witness :
  run (Mock.upstream Script.no_page Mock.scenario) Script.no_page =
    (ok tt, {| all_articles := []; requested := [];
               stdout := [lit "Done!"] |}).
Proof.
  apply (no_page_without_ceiling
           (Mock.upstream Script.no_page Mock.scenario) Script.no_page).
  cbn. lia.
Defined.

(** X8.  When the iteration of page [n] raises before any entry is read
    (the request itself raises, the body does not parse, ['response'] or
    ['results'] is missing, or the results cannot be iterated) after
    full fault-free pages, the bare [except] ends the loop: the run
    raises nothing, nothing of page [n] is collected, the articles of
    pages 1 to [n - 1] are returned and no later page is asked for. *)
Theorem fault_before_entries_returns_earlier_pages (w : world) (c : settings)
    (recs : Z -> list json) (n : Z) :
  (1 <= n <= max_limit c)%Z ->
  (forall p, (1 <= p < n)%Z ->
     page_results w c p (recs p) /\ faultless (recs p) /\
     (page_limit c <= Z.of_nat (length (recs p)))%Z) ->
  page_faulted w c n ->
  fst (run w c) = ok tt /\
  all_articles (snd (run w c)) =
    flat_map (fun p => flat_map contribution (recs p)) (range 1 n) /\
  requested (snd (run w c)) = map (page_url w c) (range 1 (n + 1)).
Proof.
  intros Hn Hfull Hfault.
  destruct (run_stops_at w c recs n [] Hn Hfull
              (fun st => page_body_faulted w c n st Hfault))
    as [Hok [Hall Hreq]].
  split; [exact Hok|]. split; [|exact Hreq].
  rewrite Hall, app_nil_r.
  rewrite !flat_map_concat_map. f_equal. apply map_ext_in.
  intros p Hp. apply range_In in Hp.
  apply gather_complete. apply (Hfull p Hp).
Qed.

Lemma fault_before_entries_returns_earlier_pages_witness :
  requests_get (Mock.upstream Mock.small Script.dropped_second)
               (Mock.url Mock.small 2) = raise RequestException /\
  run (Mock.upstream Mock.small Script.dropped_second) Mock.small =
    (ok tt,
     {| all_articles := [Mock.collected; Mock.collected];
        requested := [Mock.url Mock.small 1; Mock.url Mock.small 2];
        stdout := [fetching_line 1; fetching_line 2; lit "Done!"] |}) /\
  all_articles (snd (run (Mock.upstream Mock.small Script.dropped_second)
                         Mock.small))
    = [Mock.collected; Mock.collected].
Proof.
  split; [vm_compute; reflexivity|]. split; [vm_compute; reflexivity|].
  destruct (fault_before_entries_returns_earlier_pages
              (Mock.upstream Mock.small Script.dropped_second) Mock.small
              (fun _ => [Mock.article; Mock.article]) 2) as [_ [Hall _]].
  - vm_compute. split; discriminate.
  - intros p Hp. assert (p = 1%Z) as -> by lia.
    split; [|split; [reflexivity | vm_compute; discriminate]].
    exists (Response.mk 200 (Mock.token 1)),
           (Mock.body [Mock.article; Mock.article]),
           (JDict [ (lit "status", JStr (lit "ok"));
                    (lit "results", JList [Mock.article; Mock.article]) ]).
    repeat split; vm_compute; reflexivity.
  - left. exists RequestException. vm_compute. reflexivity.
  - rewrite Hall. vm_compute. reflexivity.
Defined.

(** X9.  When a page is answered 200 but its ['results'] is not a list
    (an object, a string, a number, [null]) and the page size is
    positive, nothing is collected from that page and the loop ends
    normally after that request: iterating an object or a string yields
    strings, which have no ['type']. *)
Theorem results_not_a_list_stops (w : world) (c : settings) (page : Z)
    (results : json) (later : list Z) (st : state) :
  page_answer w c page results ->
  (forall recs, results <> JList recs) ->
  (0 < page_limit c)%Z ->
  for_break (page :: later) (page_body w c) st =
    (ok tt, after_page w c page [] st).
Proof.
  intros Hans Hnot Hlim. apply for_break_break.
  assert (Hfault : forall exc, py_iter results = raise exc ->
                     page_body w c page st =
                     (ok Break, after_page w c page [] st)).
  { intros exc Hiter. apply page_body_faulted. right.
    destruct Hans as [resp [parsed [r [Hget [Hst [Hload [Hresp Hres]]]]]]].
    exists resp, exc. split; [exact Hget|]. split; [exact Hst|].
    rewrite Hload. cbn [rbind ok]. unfold ok in Hresp, Hres.
    rewrite Hresp. cbn [rbind]. rewrite Hres. cbn [rbind]. exact Hiter. }
  assert (Hstrs : forall (entries : list json) (n : Z),
            py_iter results = ok entries -> py_len results = ok n ->
            n = Z.of_nat (length entries) ->
            Forall (fun e => exists s, e = JStr s) entries ->
            page_body w c page st = (ok Break, after_page w c page [] st)).
  { intros entries n Hiter Hlen Hn Hall.
    rewrite (page_body_answer w c page results entries n st Hans Hiter Hlen).
    destruct entries as [|e entries].
    - cbn [gather snd page_articles fst]. unfold ok.
      cbn [length] in Hn. subst n.
      destruct (Z.ltb_spec (Z.of_nat 0) (page_limit c)); [reflexivity | lia].
    - inversion Hall as [|? ? [s ->] _]. reflexivity. }
  destruct results as [| b | z | s | l | items].
  - apply (Hfault TypeError). reflexivity.
  - apply (Hfault TypeError). reflexivity.
  - apply (Hfault TypeError). reflexivity.
  - apply (Hstrs (map (fun ch => JStr [ch]) s) (Z.of_nat (length s)));
      [reflexivity | reflexivity | rewrite length_map; reflexivity |].
    apply Forall_forall. intros e He. apply in_map_iff in He.
    destruct He as [ch [<- _]]. eauto.
  - exfalso. apply (Hnot l). reflexivity.
  - apply (Hstrs (map (fun kv => JStr (fst kv)) items)
                 (Z.of_nat (length items)));
      [reflexivity | reflexivity | rewrite length_map; reflexivity |].
    apply Forall_forall. intros e He. apply in_map_iff in He.
    destruct He as [kv [<- _]]. eauto.
Qed.

Lemma results_not_a_list_stops_witness :
  run Script.object_results Mock.small =
    (ok tt, {| all_articles := [];
               requested := [page_url Script.object_results Mock.small 1];
               stdout := [fetching_line 1; lit "Done!"] |}) /\
  for_break [1; 2; 3; 4; 5]%Z (page_body Script.object_results Mock.small)
            initial_state =
    (ok tt, after_page Script.object_results Mock.small 1 [] initial_state).
Proof.
  split; [vm_compute; reflexivity|].
  apply (results_not_a_list_stops Script.object_results Mock.small 1
           (JDict [ (lit "0", Mock.article) ])).
  - exists (Response.mk 200 (lit "{}")),
           (JDict [ (lit "response",
                     JDict [ (lit "results",
                              JDict [ (lit "0", Mock.article) ]) ]) ]),
           (JDict [ (lit "results", JDict [ (lit "0", Mock.article) ]) ]).
    repeat split; vm_compute; reflexivity.
  - intros recs. discriminate.
  - vm_compute. reflexivity.
Defined.

(** ** The trial cells *)

Section TrialCells.

Lemma py_eq_has_kind (x ty : json) :
  getitem x (lit "type") = inr ty ->
  py_eq ty (lit "article") = has_kind x (lit "article").
Proof.
  intros H. unfold has_kind, kind_of. rewrite H.
  destruct ty; reflexivity.
Qed.

Lemma filter_articles_ok (results arts : list json) :
  filter_articles results = ok arts ->
  arts = filter (fun x => has_kind x (lit "article")) results /\
  Forall (fun x => exists ty, getitem x (lit "type") = ok ty) results.
Proof.
  revert arts; induction results as [|x rest IH]; intros arts H.
  - inversion H. split; [reflexivity | constructor].
  - cbn [filter_articles] in H. unfold rbind in H.
    destruct (getitem x (lit "type")) as [e | ty] eqn:Ety; [discriminate|].
    destruct (filter_articles rest) as [e | kept]; [discriminate|].
    destruct (IH kept eq_refl) as [-> HF].
    inversion H; subst arts; clear H. split.
    + cbn [filter]. rewrite (py_eq_has_kind x ty Ety). reflexivity.
    + constructor; [exists ty; exact Ety | exact HF].
Qed.

Lemma filter_articles_total (results : list json) :
  Forall (fun x => exists ty, getitem x (lit "type") = ok ty) results ->
  exists arts, filter_articles results = ok arts.
Proof.
  induction 1 as [|x rest [ty Hty] _ [kept IH]].
  - exists []. reflexivity.
  - cbn [filter_articles]. unfold ok in Hty. rewrite Hty. cbn [rbind].
    rewrite IH. cbn [rbind ok]. eauto.
Qed.

(** Dropping the records of another kind beforehand changes nothing. *)
Lemma build_article_objs_filter (results : list json) :
  Forall (fun x => exists ty, getitem x (lit "type") = ok ty) results ->
  forall objs,
    build_article_objs
      (filter (fun x => has_kind x (lit "article")) results) objs =
    build_article_objs results objs.
Proof.
  induction 1 as [|x rest [ty Hty] _ IH]; intros objs; [reflexivity|].
  cbn [filter]. destruct (has_kind x (lit "article")) eqn:Ek.
  - cbn [build_article_objs]. destruct (entry_article x) as [e | [obj|]];
      cbn [rbind]; [reflexivity | apply IH | apply IH].
  - cbn [build_article_objs].
    assert (Hskip : entry_article x = ok None).
    { apply (entry_article_other_kind x ty Hty). intros ->.
      unfold has_kind, kind_of in Ek. unfold ok in Hty. rewrite Hty in Ek.
      rewrite str_eqb_refl in Ek. discriminate. }
    rewrite Hskip. cbn [rbind ok]. apply IH.
Qed.

(** What the trial loop builds is what the collection loop gathers. *)
Lemma build_article_objs_gather (entries : list json) :
  forall objs,
    build_article_objs entries objs =
    match snd (gather entries) with
    | inl exc => inl exc
    | inr _ => ok (objs ++ page_articles entries)
    end.
Proof.
  unfold page_articles.
  induction entries as [|e rest IH]; intros objs.
  - cbn. rewrite app_nil_r. reflexivity.
  - cbn [build_article_objs gather].
    destruct (entry_article e) as [x | [obj|]]; cbn [rbind fst snd].
    + reflexivity.
    + rewrite IH. destruct (snd (gather rest)); [reflexivity|].
      rewrite <- app_assoc. reflexivity.
    + apply IH.
Qed.

End TrialCells.

(** X10.  The kind filter of the trial cell returns, in their order,
    exactly the records whose kind is the string [article], provided
    every record has a ['type']; when it raises, some record has
    none. *)
Theorem filter_articles_keeps_articles (results : list json) :
  (Forall (fun x => exists ty, getitem x (lit "type") = ok ty) results ->
   filter_articles results =
     ok (filter (fun x => has_kind x (lit "article")) results)) /\
  ((exists exc, filter_articles results = raise exc) ->
   Exists (fun x => forall ty, getitem x (lit "type") <> ok ty) results).
Proof.
  split.
  - intros H. destruct (filter_articles_total results H) as [arts Harts].
    rewrite Harts. destruct (filter_articles_ok results arts Harts) as [-> _].
    reflexivity.
  - intros [exc Hexc]. induction results as [|x rest IH].
    + discriminate Hexc.
    + cbn [filter_articles] in Hexc. unfold rbind in Hexc.
      destruct (getitem x (lit "type")) as [e | ty] eqn:Ety.
      * left. intros ty. rewrite Ety. discriminate.
      * right. apply IH.
        destruct (filter_articles rest) as [e | kept];
          [exact Hexc | discriminate Hexc].
Qed.

(** X11.  The trial loop run on the filtered list builds what it would
    build on the unfiltered list, so its own kind test never fires
    there; and what it builds is exactly what the collection loop
    appends for the same records, while a fault that the collection
    loop swallows is raised by the trial loop. *)
Theorem trial_cells_agree_with_loop (results arts : list json) :
  filter_articles results = ok arts ->
  build_article_objs arts [] = build_article_objs results [] /\
  Forall (fun x => has_kind x (lit "article") = true) arts /\
  (forall objs, build_article_objs results [] = ok objs ->
     faultless results /\ page_articles results = objs) /\
  (forall exc, build_article_objs results [] = raise exc ->
     snd (gather results) = raise exc).
Proof.
  intros H. destruct (filter_articles_ok results arts H) as [-> Hty].
  split; [apply build_article_objs_filter; exact Hty|].
  split; [apply Forall_forall; intros x Hx; apply filter_In in Hx; tauto|].
  split.
  - intros objs Hb. rewrite build_article_objs_gather in Hb.
    unfold faultless. destruct (snd (gather results)) as [e | []];
      [discriminate|]. inversion Hb. split; reflexivity.
  - intros exc Hb. rewrite build_article_objs_gather in Hb.
    destruct (snd (gather results)) as [e | []]; [|discriminate].
    inversion Hb. reflexivity.
Qed.

Lemma trial_cells_agree_with_loop_witness :
  filter_articles [Mock.liveblog; Mock.article; Mock.hollow_article] =
    ok [Mock.article; Mock.hollow_article] /\
  build_article_objs [Mock.article; Mock.hollow_article] [] =
    raise IndexError /\
  build_article_objs [Mock.article; Mock.hollow_article] [] =
    build_article_objs [Mock.liveblog; Mock.article; Mock.hollow_article] [].
Proof.
  split; [vm_compute; reflexivity|]. split; [vm_compute; reflexivity|].
  destruct (trial_cells_agree_with_loop
              [Mock.liveblog; Mock.article; Mock.hollow_article]
              [Mock.article; Mock.hollow_article]) as [H _].
  - vm_compute. reflexivity.
  - exact H.
Defined.

(** ** The wiki-table scraper *)

Section ScraperFacts.

Import Scraper.

Lemma lstrip_spec (s : str) :
  exists l, s = l ++ lstrip s /\
            Forall (fun ch => isspace ch = true) l /\
            (forall ch t, lstrip s = ch :: t -> isspace ch = false).
Proof.
  induction s as [|ch s [l [Hs [Hl Hh]]]].
  - exists []. repeat split; [constructor | discriminate].
  - cbn [lstrip]. destruct (isspace ch) eqn:E.
    + exists (ch :: l). cbn [app]. rewrite <- Hs.
      repeat split; [constructor; assumption | exact Hh].
    + exists []. repeat split; [constructor|].
      intros ch' t H. inversion H; subst. exact E.
Qed.

Lemma lstrip_fixed (s : str) :
  (forall ch t, s = ch :: t -> isspace ch = false) -> lstrip s = s.
Proof.
  destruct s as [|ch s]; [reflexivity|]. intros H. cbn [lstrip].
  rewrite (H ch s eq_refl). reflexivity.
Qed.

Lemma rstrip_spec (s : str) :
  exists r, s = rstrip s ++ r /\
            Forall (fun ch => isspace ch = true) r /\
            (forall t ch, rstrip s = t ++ [ch] -> isspace ch = false).
Proof.
  unfold rstrip. destruct (lstrip_spec (rev s)) as [l [Hs [Hl Hh]]].
  exists (rev l). split; [|split].
  - rewrite <- rev_app_distr, <- Hs, rev_involutive. reflexivity.
  - apply Forall_rev. exact Hl.
  - intros t ch H. apply (f_equal (@rev N)) in H.
    rewrite rev_involutive, rev_app_distr in H. cbn [rev app] in H.
    exact (Hh ch (rev t) H).
Qed.

Lemma rstrip_fixed (s : str) :
  (forall t ch, s = t ++ [ch] -> isspace ch = false) -> rstrip s = s.
Proof.
  intros H. unfold rstrip. rewrite lstrip_fixed; [apply rev_involutive|].
  intros ch t Hr. apply (H (rev t) ch).
  rewrite <- (rev_involutive s), Hr. reflexivity.
Qed.

Lemma strip_trimmed (s : str) : trimmed (strip s).
Proof.
  unfold strip.
  destruct (lstrip_spec s) as [l [_ [_ Hhead]]].
  destruct (rstrip_spec (lstrip s)) as [r [Ht [_ Hlast]]].
  split; [|exact Hlast].
  intros ch t H. apply (Hhead ch (t ++ r)). rewrite Ht at 1. rewrite H.
  reflexivity.
Qed.

Lemma strip_fixed (s : str) : trimmed s -> strip s = s.
Proof.
  intros [Hh Hl]. unfold strip. rewrite (lstrip_fixed s Hh).
  apply rstrip_fixed. exact Hl.
Qed.

Lemma index_middle (pre more : list element) (x : element) :
  index (pre ++ x :: more) (length pre) = ok x.
Proof.
  unfold index. rewrite nth_error_app2 by lia. rewrite Nat.sub_diag.
  reflexivity.
Qed.

(** The type loop reads the cells from the fifth on, in order. *)
Lemma read_types_cells (lib : library) (more : list element) :
  forall pre acc,
    read_types lib (pre ++ more) (seq (length pre) (length more)) acc =
    (fix go (cells : list element) (acc : list str) : result (list str) :=
       match cells with
       | [] => ok acc
       | x :: rest =>
           let? t := text_of lib x in go rest (acc ++ [strip t])
       end) more acc.
Proof.
  induction more as [|x more IH]; intros pre acc; [reflexivity|].
  cbn [length seq read_types]. rewrite index_middle. cbn [rbind ok].
  destruct (text_of lib x) as [e | t]; cbn [rbind]; [reflexivity|].
  replace (pre ++ x :: more) with ((pre ++ [x]) ++ more)
    by (rewrite <- app_assoc; reflexivity).
  replace (S (length pre)) with (length (pre ++ [x]))
    by (rewrite length_app; cbn; lia).
  apply IH.
Qed.

Lemma read_types_tags (lib : library) (more : list element) :
  forall pre acc,
    forallb is_tag more = true ->
    read_types lib (pre ++ more) (seq (length pre) (length more)) acc =
    ok (acc ++ map (fun x => strip (tag_text x)) more).
Proof.
  intros pre acc H. rewrite read_types_cells. revert acc.
  induction more as [|x more IH]; intros acc.
  - rewrite app_nil_r. reflexivity.
  - cbn [forallb] in H. apply andb_true_iff in H. destruct H as [Hx Hm].
    destruct x as [s | t a cs]; [discriminate|].
    cbn [text_of rbind ok map tag_text]. rewrite (IH Hm).
    rewrite <- app_assoc. reflexivity.
Qed.

Lemma read_types_length (lib : library) (more : list element) :
  forall pre acc out,
    read_types lib (pre ++ more) (seq (length pre) (length more)) acc
      = ok out ->
    length out = (length acc + length more)%nat.
Proof.
  intros pre acc out. rewrite read_types_cells. revert acc.
  induction more as [|x more IH]; intros acc H.
  - inversion H. cbn. lia.
  - destruct (text_of lib x) as [e | t]; cbn [rbind] in H; [discriminate|].
    apply IH in H. rewrite H, length_app. cbn. lia.
Qed.

Lemma read_types_trimmed (lib : library) (pokemon : list element)
    (indices : list nat) :
  forall acc out,
    Forall trimmed acc ->
    read_types lib pokemon indices acc = ok out -> Forall trimmed out.
Proof.
  induction indices as [|i rest IH]; intros acc out Hacc H.
  - inversion H; subst. exact Hacc.
  - cbn [read_types] in H.
    destruct (index pokemon i) as [e | cell]; cbn [rbind] in H;
      [discriminate|].
    destruct (text_of lib cell) as [e | t]; cbn [rbind] in H;
      [discriminate|].
    apply (IH _ _ (proj2 (Forall_app _ _ _)
                     (conj Hacc (Forall_cons _ (strip_trimmed t)
                                              (Forall_nil _)))) H).
Qed.

(** [strip] takes a run of whitespace off each end and nothing else. *)
Lemma strip_spec (s : str) :
  exists l r,
    s = l ++ strip s ++ r /\
    Forall (fun ch => isspace ch = true) l /\
    Forall (fun ch => isspace ch = true) r.
Proof.
  destruct (lstrip_spec s) as [l [Hs [Hl _]]].
  destruct (rstrip_spec (lstrip s)) as [r [Ht [Hr _]]].
  exists l, r. split; [|split; [exact Hl | exact Hr]].
  unfold strip. rewrite <- Ht. exact Hs.
Qed.

Lemma read_entries_Forall2 (lib : library) (entries : list element)
    (l : list Pokemon) :
  read_entries lib entries = ok l <->
  Forall2 (fun entry p => get_pokemon lib entry = ok p) entries l.
Proof.
  revert l. induction entries as [|e rest IH]; intros l.
  - split.
    + intros H. inversion H. constructor.
    + intros H. inversion H. reflexivity.
  - cbn [read_entries]. split.
    + intros H. destruct (get_pokemon lib e) as [x | p] eqn:Ep;
        cbn [rbind] in H; [discriminate|].
      destruct (read_entries lib rest) as [x | ps] eqn:Er;
        cbn [rbind] in H; [discriminate|].
      inversion H; subst l. constructor; [exact Ep|].
      apply IH. reflexivity.
    + intros H. inversion H as [|? p ? ps Hp Hrest]; subst.
      unfold ok in Hp. rewrite Hp. cbn [rbind].
      apply IH in Hrest. unfold ok in Hrest. rewrite Hrest. reflexivity.
Qed.

End ScraperFacts.

Section ScraperTheorems.

Import Scraper.

(** X12.  Every text field of a record [get_pokemon] returns ([kdex],
    [ndex], [name] and each of the [types]) neither starts nor ends
    with a whitespace character, whatever surrounds the text in the
    page. *)
Theorem get_pokemon_texts_trimmed (lib : library) (entry : element)
    (p : Pokemon) :
  get_pokemon lib entry = ok p ->
  trimmed (kdex p) /\ trimmed (ndex p) /\ trimmed (name p) /\
  Forall trimmed (types p).
Proof.
  unfold get_pokemon. intros H.
  destruct (contents_of entry) as [e | cs]; [discriminate|].
  cbn [rbind] in H.
  destruct (index (filter ne_newline cs) 0) as [e | c0];
    cbn [rbind] in H; [discriminate|].
  destruct (text_of lib c0) as [e | t0]; cbn [rbind] in H; [discriminate|].
  destruct (index (filter ne_newline cs) 1) as [e | c1];
    cbn [rbind] in H; [discriminate|].
  destruct (text_of lib c1) as [e | t1]; cbn [rbind] in H; [discriminate|].
  destruct (index (filter ne_newline cs) 3) as [e | c3];
    cbn [rbind] in H; [discriminate|].
  destruct (text_of lib c3) as [e | t3]; cbn [rbind] in H; [discriminate|].
  destruct (read_types lib (filter ne_newline cs)
              (seq 4 (length (filter ne_newline cs) - 4)) [])
    as [e | tys] eqn:Ety; cbn [rbind] in H; [discriminate|].
  destruct (find_a_href c3) as [e | v]; cbn [rbind] in H; [discriminate|].
  destruct (host_plus v) as [e | u]; cbn [rbind] in H; [discriminate|].
  inversion H; subst p; clear H. cbn [kdex ndex name types].
  repeat split; try apply strip_trimmed.
  apply (read_types_trimmed lib _ _ [] tys (Forall_nil _) Ety).
Qed.

Lemma get_pokemon_texts_trimmed_witness :
  tag_text (cell (lit " #001" ++ newline)) = lit " #001" ++ newline /\
  trimmed (lit "#001") /\ Forall trimmed [lit "Grass"; lit "Poison"].
Proof.
  split; [reflexivity|].
  destruct (get_pokemon_texts_trimmed strings_raise bulbasaur
              {| kdex := lit "#001"; ndex := lit "#001";
                 name := lit "Bulbasaur";
                 types := [lit "Grass"; lit "Poison"];
                 url := HOST ++ lit "/wiki/Bulbasaur" |})
    as [Hk [_ [_ Ht]]].
  - vm_compute. reflexivity.
  - split; [exact Hk | exact Ht].
Defined.

(** X13.  For a row with at least four cells besides the newline
    strings, whose first, second and later cells are tags and whose
    fourth cell is a tag with a link carrying a string [href],
    [get_pokemon] returns the stripped texts of the first, second and
    fourth cells as [kdex], [ndex] and [name], the stripped texts of the
    cells from the fifth on as [types], and the host followed by the
    [href] as [url]; the third cell is never read. *)
Theorem get_pokemon_fields (lib : library) (t : str)
    (a : option (list (str * attr_value))) (cs : list element)
    (c0 c1 c2 : element) (more : list element)
    (t3 : str) (attrs : list (str * attr_value)) (cs3 : list element)
    (h : str) :
  filter ne_newline cs = c0 :: c1 :: c2 :: Tag t3 (Some attrs) cs3 :: more ->
  is_tag c0 = true -> is_tag c1 = true -> forallb is_tag more = true ->
  attr_get attrs (lit "href") = Some (AttrStr h) ->
  get_pokemon lib (Tag t a cs) =
    ok {| kdex := strip (tag_text c0);
          ndex := strip (tag_text c1);
          name := strip t3;
          types := map (fun x => strip (tag_text x)) more;
          url := HOST ++ h |}.
Proof.
  intros Hcells H0 H1 Hmore Hhref.
  unfold get_pokemon. cbn [contents_of rbind ok]. rewrite Hcells.
  destruct c0 as [s0 | t0 a0 cs0]; [discriminate|].
  destruct c1 as [s1 | t1 a1 cs1]; [discriminate|].
  cbn [index nth_error text_of rbind ok tag_text].
  change (length (Tag t0 a0 cs0 :: Tag t1 a1 cs1 :: c2
                    :: Tag t3 (Some attrs) cs3 :: more) - 4)%nat
    with (length more - 0)%nat.
  rewrite Nat.sub_0_r.
  pose proof (read_types_tags lib more
                [Tag t0 a0 cs0; Tag t1 a1 cs1; c2; Tag t3 (Some attrs) cs3]
                [] Hmore) as Htypes.
  cbn [app length] in Htypes. unfold ok in Htypes. rewrite Htypes.
  cbn [rbind ok app find_a_href]. rewrite Hhref. reflexivity.
Qed.

Lemma get_pokemon_fields_witness :
  get_pokemon strings_raise bulbasaur =
    ok {| kdex := lit "#001"; ndex := lit "#001"; name := lit "Bulbasaur";
          types := [lit "Grass"; lit "Poison"];
          url := lit "https://bulbapedia.bulbagarden.net/wiki/Bulbasaur" |}.
Proof.
  apply (get_pokemon_fields strings_raise [] None _
           (cell (lit " #001" ++ newline)) (cell (lit " #001" ++ newline))
           (Tag [] None [])
           [cell (lit " Grass" ++ newline); cell (lit " Poison" ++ newline)]
           (lit " Bulbasaur" ++ newline)
           [ (lit "href", AttrStr (lit "/wiki/Bulbasaur"));
             (lit "title", AttrStr (lit " Bulbasaur" ++ newline)) ]
           [NavigableString newline] (lit "/wiki/Bulbasaur"));
    vm_compute; reflexivity.
Defined.

(** X14.  [get_pokemon] returns a record only for a node that has
    children, at least four of them besides the newline strings, the
    fourth being a tag with a link whose [href] is a string; the record
    then has one type per cell after the fourth, and its [kdex], [ndex]
    and [name] carry no surrounding whitespace.  A row with fewer cells
    yields no record. *)
Theorem get_pokemon_needs_four_cells (lib : library) (entry : element)
    (p : Pokemon) :
  get_pokemon lib entry = ok p ->
  exists cs c0 c1 c2 t3 attrs cs3 more h,
    contents_of entry = ok cs /\
    filter ne_newline cs = c0 :: c1 :: c2 :: Tag t3 (Some attrs) cs3 :: more /\
    attr_get attrs (lit "href") = Some (AttrStr h) /\
    url p = HOST ++ h /\ name p = strip t3 /\
    length (types p) = length more.
Proof.
  unfold get_pokemon. intros H.
  destruct (contents_of entry) as [e | cs] eqn:Ecs; [discriminate|].
  cbn [rbind] in H.
  destruct (filter ne_newline cs) as [|c0 [|c1 [|c2 [|c3 more]]]] eqn:Ef;
    cbn [index nth_error rbind ok raise] in H;
    try discriminate H;
    try (destruct (text_of lib c0); cbn [rbind] in H; [discriminate H|];
         try discriminate H;
         destruct (text_of lib c1); cbn [rbind] in H; discriminate H).
  destruct (text_of lib c0) as [e | t0]; cbn [rbind] in H; [discriminate|].
  destruct (text_of lib c1) as [e | t1]; cbn [rbind] in H; [discriminate|].
  destruct (text_of lib c3) as [e | t3'] eqn:Et3; cbn [rbind] in H;
    [discriminate|].
  change (length (c0 :: c1 :: c2 :: c3 :: more) - 4)%nat
    with (length more - 0)%nat in H.
  rewrite Nat.sub_0_r in H.
  destruct (read_types lib (c0 :: c1 :: c2 :: c3 :: more)
              (seq 4 (length more)) []) as [e | tys] eqn:Ety;
    cbn [rbind] in H; [discriminate|].
  destruct (find_a_href c3) as [e | v] eqn:Ehref; cbn [rbind] in H;
    [discriminate|].
  destruct (host_plus v) as [e | u] eqn:Eu; cbn [rbind] in H;
    [discriminate|].
  inversion H; subst p; clear H. cbn [url name types kdex ndex].
  destruct c3 as [s3 | t3 [attrs|] cs3]; try discriminate Ehref.
  cbn [find_a_href] in Ehref.
  destruct (attr_get attrs (lit "href")) as [v'|] eqn:Ea;
    [|discriminate Ehref].
  inversion Ehref; subst v'; clear Ehref.
  destruct v as [h | hs]; [|discriminate Eu].
  inversion Eu; subst u; clear Eu.
  cbn [text_of] in Et3. inversion Et3; subst t3'; clear Et3.
  exists cs, c0, c1, c2, t3, attrs, cs3, more, h.
  split; [reflexivity|]. split; [exact Ef|]. split; [exact Ea|].
  split; [reflexivity|]. split; [reflexivity|].
  apply (read_types_length lib more
           [c0; c1; c2; Tag t3 (Some attrs) cs3] [] tys). exact Ety.
Qed.

Lemma get_pokemon_needs_four_cells_witness :
  get_pokemon strings_raise short_row = raise IndexError /\
  exists more : list element,
    length (types {| kdex := lit "#004"; ndex := lit "#004";
                     name := lit "Charmander"; types := [lit "Fire"];
                     url := HOST ++ lit "/wiki/Charmander" |})
    = length more /\ length more = 1%nat.
Proof.
  split; [vm_compute; reflexivity|].
  destruct (get_pokemon_needs_four_cells strings_raise charmander
              {| kdex := lit "#004"; ndex := lit "#004";
                 name := lit "Charmander"; types := [lit "Fire"];
                 url := HOST ++ lit "/wiki/Charmander" |})
    as [cs [c0 [c1 [c2 [t3 [attrs [cs3 [more [h [Hcs [Hf [_ [_ [_ Hlen]]]]]]]]]]]]]].
  - vm_compute. reflexivity.
  - exists more. split; [exact Hlen|].
    cbn [types length] in Hlen. symmetry. exact Hlen.
Defined.

(** X15.  [get_pokemon_list] drops the newline strings among the
    children of the table, never reads the first remaining child (the
    header row), and returns the records of the other rows in their
    order; it returns a list exactly when [get_pokemon] returns a
    record for every one of those rows, so one bad row makes the whole
    call raise.  A table with no row, or with a header only, gives the
    empty list. *)
Theorem get_pokemon_list_rows (lib : library) (t : str)
    (a : option (list (str * attr_value))) (cs : list element)
    (l : list Pokemon) :
  (get_pokemon_list lib (Tag t a cs) = ok l <->
   Forall2 (fun row p => get_pokemon lib row = ok p)
           (tl (filter ne_newline cs)) l) /\
  ((length (filter ne_newline cs) <= 1)%nat ->
   get_pokemon_list lib (Tag t a cs) = ok []).
Proof.
  unfold get_pokemon_list. cbn [contents_of rbind ok]. split.
  - apply read_entries_Forall2.
  - intros H. destruct (filter ne_newline cs) as [|hd [|x rest]];
      [reflexivity | reflexivity | cbn [length] in H; lia].
Qed.

Lemma get_pokemon_list_rows_witness :
  get_pokemon_list strings_raise table =
    ok [ {| kdex := lit "#001"; ndex := lit "#001"; name := lit "Bulbasaur";
            types := [lit "Grass"; lit "Poison"];
            url := HOST ++ lit "/wiki/Bulbasaur" |};
         {| kdex := lit "#004"; ndex := lit "#004"; name := lit "Charmander";
            types := [lit "Fire"];
            url := HOST ++ lit "/wiki/Charmander" |} ] /\
  get_pokemon strings_raise header = raise IndexError /\
  get_pokemon_list strings_raise (Tag [] None [NavigableString newline; header])
    = ok [].
Proof.
  split; [|split; [vm_compute; reflexivity|]].
  - apply (proj1 (get_pokemon_list_rows strings_raise [] None _ _)).
    change (tl (filter ne_newline
                  [NavigableString newline; header; NavigableString newline;
                   bulbasaur; NavigableString newline; charmander;
                   NavigableString newline]))
      with [bulbasaur; charmander].
    constructor; [vm_compute; reflexivity|].
    constructor; [vm_compute; reflexivity | constructor].
  - apply (proj2 (get_pokemon_list_rows strings_raise [] None
                    [NavigableString newline; header] [])).
    vm_compute. lia.
Defined.

(** X16.  The loop over the tables appends the list of each table in
    turn; when a table raises, the lists of the tables before it are
    already in [poke_json] and the tables after it are not read. *)
Theorem collect_tables_until_fault (lib : library)
    (lists : element -> list Pokemon) (good rest : list element)
    (bad : element) (exc : pyexc) (poke_json : list Pokemon) :
  (forall tb, In tb good -> get_pokemon_list lib tb = ok (lists tb)) ->
  get_pokemon_list lib bad = raise exc ->
  collect_tables lib good poke_json =
    (poke_json ++ flat_map lists good, ok tt) /\
  collect_tables lib (good ++ bad :: rest) poke_json =
    (poke_json ++ flat_map lists good, raise exc).
Proof.
  intros Hgood Hbad. revert poke_json.
  induction good as [|tb good IH]; intros poke_json.
  - cbn [app collect_tables flat_map]. unfold raise in Hbad. rewrite Hbad.
    rewrite app_nil_r. split; reflexivity.
  - cbn [app collect_tables flat_map].
    rewrite (Hgood tb (or_introl eq_refl)). unfold ok at 1 3.
    destruct (IH (fun x Hx => Hgood x (or_intror Hx)) (poke_json ++ lists tb))
      as [H1 H2].
    rewrite H1, H2, <- !app_assoc. split; reflexivity.
Qed.

Lemma collect_tables_until_fault_witness :
  fst (collect_tables strings_raise [table; short_row; table] []) =
    flat_map (fun _ =>
      match get_pokemon_list strings_raise table with
      | inr l => l
      | inl _ => []
      end) [table] /\
  snd (collect_tables strings_raise [table; short_row; table] []) =
    raise AttributeError.
Proof.
  destruct (collect_tables_until_fault strings_raise
              (fun _ => match get_pokemon_list strings_raise table with
                        | inr l => l
                        | inl _ => []
                        end)
              [table] [table] short_row AttributeError []) as [_ H].
  - intros tb [<- | []]. vm_compute. reflexivity.
  - vm_compute. reflexivity.
  - change ([table; short_row; table]) with ([table] ++ short_row :: [table]).
    rewrite H. split; reflexivity.
Defined.

End ScraperTheorems.

(** ** More on the collected articles *)

(** X17.  In every run, every author name of every article in the final
    accumulator holds none of the seven mis-decoded sequences: the
    names are cleaned like the title and the text. *)
Theorem collected_authors_repaired (w : world) (c : settings)
    (a : CollectedArticle) :
  In a (all_articles (snd (run w c))) ->
  Forall repaired (authors a).
Proof.
  intros Hin.
  destruct (run_provenance w c a Hin) as [page [e [_ [_ He]]]].
  destruct (entry_article_some e a He)
    as [_ [_ [_ [[tags [tl [_ [_ Hau]]]] _]]]].
  destruct (collect_authors_ok tl [] (authors a) Hau) as [-> _].
  cbn [app]. apply Forall_forall. intros n Hn.
  apply in_map_iff in Hn. destruct Hn as [t [<- _]].
  apply clean_text_repaired.
Qed.

Lemma collected_authors_repaired_witness :
  contains (lit "Ren" ++ mis_eacute ++ lit "e A") mis_eacute = true /\
  Forall repaired (authors Mock.collected).
Proof.
  split; [vm_compute; reflexivity|].
  apply (collected_authors_repaired
           (Mock.upstream Mock.small Mock.refused_third) Mock.small).
  vm_compute. left. reflexivity.
Defined.

(** X18.  What the loop makes of a record depends only on the values
    under the five keys it reads ([type], [webTitle],
    [webPublicationDate], [tags], [blocks]): two records that agree on
    them give the same article, the same skip or the same fault,
    whatever other fields they carry. *)
Theorem entry_article_reads_five_keys (d1 d2 : list (str * json)) :
  (forall key, In key read_keys -> dict_get d1 key = dict_get d2 key) ->
  entry_article (JDict d1) = entry_article (JDict d2).
Proof.
  intros H. unfold entry_article, getitem.
  rewrite (H (lit "type")), (H (lit "webTitle")),
    (H (lit "webPublicationDate")), (H (lit "tags")), (H (lit "blocks"));
    try reflexivity; unfold read_keys; cbn [In]; tauto.
Qed.

Lemma entry_article_reads_five_keys_witness :
  entry_article
    (JDict ((lit "sectionId", JStr (lit "world")) ::
            match Mock.article with JDict items => items | _ => [] end)) =
  entry_article Mock.article.
Proof.
  apply (entry_article_reads_five_keys
           ((lit "sectionId", JStr (lit "world")) ::
            match Mock.article with JDict items => items | _ => [] end)
           match Mock.article with JDict items => items | _ => [] end).
  intros key Hkey. unfold read_keys in Hkey. cbn [In] in Hkey.
  repeat (destruct Hkey as [<- | Hkey]; [vm_compute; reflexivity|]).
  contradiction.
Defined.
